(** * Stock correlation heatmap: a shallow embedding and its properties

    The program under study is a single Python script.  It asks for a list
    of company names, downloads their adjusted closing prices, computes the
    correlation matrix of the daily returns ([data.pct_change().corr()]),
    draws a heatmap and one price panel per company.

    Conventions of the embedding:
    - a Python [str] is a [string]; one character of the model is one code
      point below 256;
    - a price is [option Q]: [None] is the missing value (NaN), a present
      price is an exact rational, so arithmetic is the exact arithmetic that
      IEEE doubles approximate;
    - a value computed from prices is an [fval], which adds the two
      infinities and NaN that a division by a zero price produces;
    - an effectful function returns the list of the events it emitted
      together with either the exception it raised or its value. *)

From Stdlib Require Import Ascii QArith Qreals Reals Lra Lia Psatz.
From stdpp Require Import gmap strings list fin_maps.

(** ** Python strings *)

Module PyStr.

(** [str.isspace] on the code points below 256. *)
Definition isspace (c : ascii) : bool :=
  let n := nat_of_ascii c in
  ((9 <=? n) && (n <=? 13)) || ((28 <=? n) && (n <=? 32))
  || (n =? 133) || (n =? 160).

(** [s.split(sep)] for a one-character separator: the pieces between the
    separators, empty pieces kept, so the result is never empty. *)
Fixpoint split (sep : ascii) (s : string) : list string :=
  match s with
  | EmptyString => [EmptyString]
  | String c s' =>
      if Ascii.eqb c sep then EmptyString :: split sep s'
      else match split sep s' with
           | [] => [String c EmptyString]
           | w :: ws => String c w :: ws
           end
  end.

Fixpoint lstrip (s : string) : string :=
  match s with
  | EmptyString => EmptyString
  | String c s' => if isspace c then lstrip s' else s
  end.

Fixpoint rstrip (s : string) : string :=
  match s with
  | EmptyString => EmptyString
  | String c s' =>
      match rstrip s' with
      | EmptyString => if isspace c then EmptyString else String c EmptyString
      | r => String c r
      end
  end.

(** [s.strip()]: whitespace removed at both ends. *)
Definition strip (s : string) : string := rstrip (lstrip s).

End PyStr.

(** ** The symbol table and the resolver ([fetch_stock_data], lines 19-39) *)

(** The literal of [company_symbols], in source order. *)
Definition company_symbols_items : list (string * string) :=
  [ ("Apple", "AAPL"); ("Microsoft", "MSFT"); ("Amazon", "AMZN");
    ("Alphabet", "GOOGL"); ("Meta", "META"); ("Tesla", "TSLA");
    ("Nvidia", "NVDA"); ("JPMorgan Chase", "JPM"); ("Walmart", "WMT");
    ("ExxonMobil", "XOM"); ("Johnson & Johnson", "JNJ"); ("Visa", "V");
    ("Mastercard", "MA"); ("Intel", "INTC"); ("Coca-Cola", "KO") ].

Definition company_symbols : gmap string string :=
  list_to_map company_symbols_items.

(** [company_symbols.get(company, company)] *)
Definition resolve (company : string) : string :=
  default company (company_symbols !! company).

(** [[company_symbols.get(company, company) for company in companies]] *)
Definition symbols_of (companies : list string) : list string :=
  resolve <$> companies.

(** The list [available_companies] of [main]. *)
Definition available_companies : list string :=
  [ "Apple"; "Microsoft"; "Amazon"; "Alphabet"; "Meta";
    "Tesla"; "Nvidia"; "JPMorgan Chase"; "Walmart"; "ExxonMobil";
    "Johnson & Johnson"; "Visa"; "Mastercard"; "Intel"; "Coca-Cola" ].

(** ** Numbers *)

(** A present price is a rational; a missing one (NaN in the table) is
    [None]. *)
Definition price := option Q.

(** What arithmetic on prices can produce: a finite value, an infinity (a
    nonzero price divided by a zero one) or NaN (a missing operand, or zero
    divided by zero). *)
Inductive fval : Type :=
| Fin (q : Q)
| PInf
| NInf
| NaN.

Definition of_price (p : price) : fval :=
  match p with
  | Some q => Fin q
  | None => NaN
  end.

(** Division and subtraction with the IEEE rules for the special values;
    a zero divisor counts as positive zero. *)
Definition fdiv (a b : fval) : fval :=
  match a, b with
  | NaN, _ | _, NaN => NaN
  | Fin x, Fin y =>
      if Qeq_bool y 0
      then (if Qeq_bool x 0 then NaN else if Qle_bool 0 x then PInf else NInf)
      else Fin (x / y)
  | Fin _, PInf | Fin _, NInf => Fin 0
  | PInf, Fin y => if Qle_bool 0 y then PInf else NInf
  | NInf, Fin y => if Qle_bool 0 y then NInf else PInf
  | _, _ => NaN
  end.

Definition fsub (a b : fval) : fval :=
  match a, b with
  | NaN, _ | _, NaN => NaN
  | Fin x, Fin y => Fin (x - y)
  | Fin _, PInf => NInf
  | Fin _, NInf => PInf
  | PInf, Fin _ | PInf, NInf => PInf
  | NInf, Fin _ | NInf, PInf => NInf
  | PInf, PInf | NInf, NInf => NaN
  end.

(** [v > 0] and [v < 0]; both are false on NaN. *)
Definition fgt0 (v : fval) : bool :=
  match v with
  | Fin q => negb (Qle_bool q 0)
  | PInf => true
  | NInf | NaN => false
  end.

Definition flt0 (v : fval) : bool :=
  match v with
  | Fin q => negb (Qle_bool 0 q)
  | NInf => true
  | PInf | NaN => false
  end.

(** Equality of computed values: rationals are compared as numbers, not as
    fractions. *)
Definition feq (a b : fval) : Prop :=
  match a, b with
  | Fin x, Fin y => (x == y)%Q
  | PInf, PInf | NInf, NInf | NaN, NaN => True
  | _, _ => False
  end.

(** ** The pandas operations the script calls *)

(** A table: labelled columns, in order; the rows are the trading days,
    numbered from 0. *)
Abbreviation DataFrame A := (list (string * list A)) (only parsing).

Definition column_labels {A} (df : DataFrame A) : list string := df.*1.

(** [df[label]]: the column, or [KeyError] ([None]) when there is none. *)
Fixpoint getitem {A} (df : DataFrame A) (label : string) : option (list A) :=
  match df with
  | [] => None
  | (l, col) :: df' => if decide (l = label) then Some col else getitem df' label
  end.

(** [s.shift(1)]: every value moves one row down, row 0 becomes missing. *)
Definition shift (col : list price) : list price :=
  match col with
  | [] => []
  | _ :: _ => None :: removelast col
  end.

(** [s.pct_change()], computed by pandas as [s / s.shift(1) - 1]; missing
    prices are not filled. *)
Definition series_pct_change (col : list price) : list fval :=
  zip_with (fun x y => fsub (fdiv (of_price x) (of_price y)) (Fin 1))
           col (shift col).

(** [s.ffill()]: a missing price takes the last present one before it.
    Releases of pandas that still fill by default compute the change on the
    filled column. *)
Fixpoint ffill_from (last : price) (col : list price) : list price :=
  match col with
  | [] => []
  | Some q :: col' => Some q :: ffill_from (Some q) col'
  | None :: col' => last :: ffill_from last col'
  end.

Definition ffill (col : list price) : list price := ffill_from None col.

Definition series_pct_change_pad (col : list price) : list fval :=
  series_pct_change (ffill col).

(** [df.pct_change()] works column by column. *)
Definition pct_change (df : DataFrame price) : DataFrame fval :=
  (fun lc => (lc.1, series_pct_change lc.2)) <$> df.

(** The rows on which both columns hold a finite value. *)
Fixpoint complete_rows (xs ys : list fval) : list (Q * Q) :=
  match xs, ys with
  | x :: xs', y :: ys' =>
      match x, y with
      | Fin a, Fin b => (a, b) :: complete_rows xs' ys'
      | _, _ => complete_rows xs' ys'
      end
  | _, _ => []
  end.

Definition Qsum (l : list Q) : Q := foldr Qplus 0%Q l.

Definition mean (l : list Q) : Q :=
  (Qsum l / inject_Z (Z.of_nat (length l)))%Q.

(** Deviations from the mean. *)
Definition dev (l : list Q) : list Q :=
  let m := mean l in (fun x => (x - m)%Q) <$> l.

Definition dot (a b : list Q) : Q := Qsum (zip_with Qmult a b).

(** Sum of the squared deviations, and of the products of deviations. *)
Definition ssqdm (l : list Q) : Q := dot (dev l) (dev l).
Definition covxy (xs ys : list Q) : Q := dot (dev xs) (dev ys).

(** Pearson correlation of two columns over their complete rows,
    [min_periods = 1].  The divisor is [sqrt (ssqdm x * ssqdm y)]; pandas
    gives NaN when it is zero, which is when the product under the root
    is. *)
Definition pearson (xs ys : list fval) : option R :=
  let rows := complete_rows xs ys in
  let vx := rows.*1 in
  let vy := rows.*2 in
  if (length rows <? 1)%nat then None
  else
    let d := (ssqdm vx * ssqdm vy)%Q in
    if Qeq_bool d 0 then None
    else Some (Q2R (covxy vx vy) / sqrt (Q2R d))%R.

(** A correlation matrix: the labels of both axes and the cells, row by
    row; a cell is [None] when the correlation is undefined. *)
Record Matrix : Type := mkMatrix {
  labels : list string;
  cells : list (list (option R))
}.

(** [df.corr()] *)
Definition corr (df : DataFrame fval) : Matrix :=
  {| labels := column_labels df;
     cells := (fun cx => (fun cy => pearson cx.2 cy.2) <$> df) <$> df |}.

(** [M[i][j]]; the outer [None] is an index out of range. *)
Definition cell (M : Matrix) (i j : nat) : option (option R) :=
  row ← cells M !! i; row !! j.

(** The finite values of a column, and whether their variance is nonzero. *)
Definition finite_values (xs : list fval) : list Q :=
  omap (fun v => match v with Fin q => Some q | _ => None end) xs.

Definition nonzero_variance (xs : list fval) : Prop :=
  ~ (ssqdm (finite_values xs) == 0)%Q.

(** ** Effects: what the script prints, draws and downloads *)

Inductive exn : Type :=
| KeyError (key : string)
| ValueError (msg : string)
| DownloadError (msg : string).

(** What a [print] call shows.  The f-strings that embed a list or an
    exception keep it as a value. *)
Inductive message : Type :=
| Text (s : string)
| BulletLine (company : string)
| InvalidCompanies (invalid_companies : list string)
| ErrorProcessing (e : exn)
| MatrixText (M : Matrix).

(** The keyword arguments of [sns.heatmap]. *)
Record heatmap_args : Type := mkHeatmapArgs {
  annot : bool;
  cmap : string;
  center : Z;
  vmin : Z;
  vmax : Z;
  square : bool;
  linewidths : Q
}.

Inductive event : Type :=
| Print (m : message)
| YfDownload (symbols : list string) (start_date end_date : string)
| PltFigure (width height : nat)
| SnsHeatmap (M : Matrix) (kw : heatmap_args)
| PltTitle (text : string) (fontsize : nat)
| PltTightLayout
| PltShow
| PltSubplots (nrows ncols width height : nat)
| AxPlot (ax : nat) (xs : list nat) (ys : list price) (label : string)
| AxSetTitle (ax : nat) (text : string) (fontsize : nat)
| AxSetXlabel (ax : nat) (text : string)
| AxSetYlabel (ax : nat) (text : string)
| AxScatter (ax : nat) (xs : list nat) (ys : list price)
            (color marker : string) (alpha : Q) (label : string)
| AxLegend (ax : nat).

(** A computation emits events and then raises or returns. *)
Definition Eff (A : Type) : Type := (list event * (exn + A))%type.

Definition ret {A} (a : A) : Eff A := ([], inr a).
Definition raise {A} (e : exn) : Eff A := ([], inl e).
Definition emit (ev : event) : Eff unit := ([ev], inr tt).

Definition bind {A B} (c : Eff A) (k : A -> Eff B) : Eff B :=
  match c with
  | (evs, inl e) => (evs, inl e)
  | (evs, inr a) => let '(evs', r) := k a in (evs ++ evs', r)
  end.

Declare Scope eff_scope.
Delimit Scope eff_scope with eff.
Notation "'let*' x ':=' c 'in' k" := (bind c (fun x => k))
  (at level 10, x pattern, c at level 100, k at level 200) : eff_scope.
Notation "c ';;' k" := (bind c (fun _ => k))
  (at level 100, k at level 200, right associativity) : eff_scope.

(** [try: c except Exception as e: handler e] *)
Definition try_except (c : Eff unit) (handler : exn -> Eff unit) : Eff unit :=
  match c with
  | (evs, inl e) => let '(evs', r) := handler e in (evs ++ evs', r)
  | (evs, inr a) => (evs, inr a)
  end.

(** [for i, x in enumerate(l): body i x], counting from [i]. *)
Fixpoint for_enumerate {A} (i : nat) (l : list A) (body : nat -> A -> Eff unit)
  : Eff unit :=
  match l with
  | [] => ret tt
  | x :: l' => (body i x ;; for_enumerate (S i) l' body)%eff
  end.

(** Boolean indexing [xs[mask]]: the entries at which the mask is true. *)
Fixpoint bool_index {A} (xs : list A) (mask : list bool) : list A :=
  match xs, mask with
  | x :: xs', b :: mask' =>
      if b then x :: bool_index xs' mask' else bool_index xs' mask'
  | _, _ => []
  end.

(** The row index of a column: the days, numbered from 0. *)
Definition index_of {A} (col : list A) : list nat := seq 0 (length col).

Definition newline : string := String "010"%char EmptyString.

(** ** The script *)

Section Script.

(** The market-data provider: [yf.download(symbols, start, end)['Adj Close']]
    either raises or yields the table of adjusted closing prices. *)
Variable yf_download :
  list string -> string -> string -> exn + DataFrame price.

Definition fetch_stock_data (companies : list string)
           (start_date end_date : string) : Eff (DataFrame price) :=
  let symbols := symbols_of companies in
  (emit (YfDownload symbols start_date end_date) ;;
   match yf_download symbols start_date end_date with
   | inl e => raise e
   | inr data => ret data
   end)%eff.

Definition create_correlation_heatmap (data : DataFrame price) : Eff Matrix :=
  let correlation_matrix := corr (pct_change data) in
  (emit (PltFigure 12 10) ;;
   emit (SnsHeatmap correlation_matrix
           {| annot := true; cmap := "Blues"; center := 0;
              vmin := -1; vmax := 1; square := true;
              linewidths := 1 # 2 |}) ;;
   emit (PltTitle "Stock Price Correlation Heatmap" 16) ;;
   emit PltTightLayout ;;
   ret correlation_matrix)%eff.

(** The body of the loop over the companies: one panel. *)
Definition chart_panel (data : DataFrame price) (i : nat) (company : string)
  : Eff unit :=
  match getitem data company with
  | None => raise (KeyError company)
  | Some stock_data =>
      let stock_data_pct := series_pct_change stock_data in
      let positive_changes := fgt0 <$> stock_data_pct in
      let negative_changes := flt0 <$> stock_data_pct in
      (emit (AxPlot i (index_of stock_data) stock_data "Price") ;;
       emit (AxSetTitle i (company +:+ " Stock Price") 14) ;;
       emit (AxSetXlabel i "Date") ;;
       emit (AxSetYlabel i "Price ($)") ;;
       emit (AxScatter i
               (bool_index (index_of stock_data) positive_changes)
               (bool_index stock_data positive_changes)
               "green" "^" (7 # 10) "Positive Change") ;;
       emit (AxScatter i
               (bool_index (index_of stock_data) negative_changes)
               (bool_index stock_data negative_changes)
               "red" "v" (7 # 10) "Negative Change") ;;
       emit (AxLegend i))%eff
  end.

(** [plt.subplots] refuses a grid of no rows. *)
Definition create_candlestick_charts (data : DataFrame price)
           (companies : list string) : Eff unit :=
  let n := length companies in
  (match n with
   | O => raise (ValueError "Number of rows must be a positive integer, not 0")
   | S _ => emit (PltSubplots n 1 12 (5 * n))
   end ;;
   for_enumerate 0 companies (chart_panel data) ;;
   emit PltTightLayout)%eff.

Definition prompt : event :=
  Print (Text (newline +:+ "Enter at least 2 company names (comma-separated):")).

(** One pass through the body of the [while True] loop of [main], on the
    line that [input()] returned: what is printed, and [Some companies] at
    the [break], [None] at a [continue]. *)
Definition loop_body (line : string) : list event * option (list string) :=
  let user_input := PyStr.split "," line in
  let companies := PyStr.strip <$> user_input in
  if (length companies <? 2)%nat then
    ([prompt; Print (Text "Please enter at least 2 companies.")], None)
  else
    let invalid_companies :=
      filter (fun c => c ∉ available_companies) companies in
    match invalid_companies with
    | _ :: _ =>
        ([prompt; Print (InvalidCompanies invalid_companies);
          Print (Text "Please choose from the available list.")], None)
    | [] => ([prompt], Some companies)
    end.

(** The loop, run on the lines typed so far.  When they are used up the
    loop has printed its prompt and waits in [input()]: [None]. *)
Fixpoint input_loop (lines : list string)
  : list event * option (list string) :=
  match lines with
  | [] => ([prompt], None)
  | line :: rest =>
      match loop_body line with
      | (evs, Some companies) => (evs, Some companies)
      | (evs, None) => let '(evs', r) := input_loop rest in (evs ++ evs', r)
      end
  end.

(** The second [try] block of [main]. *)
Definition process (companies : list string) : Eff unit :=
  try_except
    (let* stock_data := fetch_stock_data companies "2023-01-01" "2024-01-01" in
     let* correlation_matrix := create_correlation_heatmap stock_data in
     emit PltShow ;;
     emit (Print (Text (newline +:+ "Correlation Matrix:"))) ;;
     emit (Print (MatrixText correlation_matrix)) ;;
     create_candlestick_charts stock_data companies ;;
     emit PltShow)%eff
    (fun e => emit (Print (ErrorProcessing e))).

Definition banner : list event :=
  Print (Text "Stock Correlation and Visualization Tool")
    :: Print (Text (newline +:+ "Available Companies:"))
    :: ((fun company => Print (BulletLine company)) <$> available_companies).

Inductive driver_state : Type :=
| AwaitingInput
| Done.

(** [main] on the lines typed so far: what it has emitted, and whether it
    has finished or still waits for input. *)
Definition main (lines : list string) : list event * driver_state :=
  let '(evs, r) := input_loop lines in
  match r with
  | None => (banner ++ evs, AwaitingInput)
  | Some companies => (banner ++ evs ++ (process companies).1, Done)
  end.

End Script.

(** ** Vocabulary of the statements *)

(** The events that show a result: anything drawn, and the printed matrix. *)
Definition renders (ev : event) : bool :=
  match ev with
  | Print (MatrixText _) => true
  | Print _ | YfDownload _ _ _ => false
  | _ => true
  end.

(** The classes of matplotlib's colormap reference that matter here. *)
Inductive cmap_class : Type :=
| Sequential
| Diverging.

Definition sequential_cmaps : list string :=
  [ "Greys"; "Purples"; "Blues"; "Greens"; "Oranges"; "Reds";
    "YlOrBr"; "YlOrRd"; "OrRd"; "PuRd"; "RdPu"; "BuPu";
    "GnBu"; "PuBu"; "YlGnBu"; "PuBuGn"; "BuGn"; "YlGn" ].

Definition diverging_cmaps : list string :=
  [ "PiYG"; "PRGn"; "BrBG"; "PuOr"; "RdGy"; "RdBu"; "RdYlBu";
    "RdYlGn"; "Spectral"; "coolwarm"; "bwr"; "seismic" ].

Definition colormap_class (name : string) : option cmap_class :=
  if decide (name ∈ sequential_cmaps) then Some Sequential
  else if decide (name ∈ diverging_cmaps) then Some Diverging
  else None.


(** What one panel emits when the company is a column of the table. *)
Definition panel_events (i : nat) (company : string) (stock_data : list price)
  : list event :=
  let stock_data_pct := series_pct_change stock_data in
  [ AxPlot i (index_of stock_data) stock_data "Price";
    AxSetTitle i (company +:+ " Stock Price") 14;
    AxSetXlabel i "Date";
    AxSetYlabel i "Price ($)";
    AxScatter i
      (bool_index (index_of stock_data) (fgt0 <$> stock_data_pct))
      (bool_index stock_data (fgt0 <$> stock_data_pct))
      "green" "^" (7 # 10) "Positive Change";
    AxScatter i
      (bool_index (index_of stock_data) (flt0 <$> stock_data_pct))
      (bool_index stock_data (flt0 <$> stock_data_pct))
      "red" "v" (7 # 10) "Negative Change";
    AxLegend i ].

(** The markers of one panel in a run of the renderer that ended
    normally. *)
Definition panel_markers (evs : list event) (i : nat) (company : string)
           (data : DataFrame price) : Prop :=
  ∃ (stock_data : list price) (ups downs : list nat) (ups_y downs_y : list price),
    getitem data company = Some stock_data
    ∧ AxScatter i ups ups_y "green" "^" (7 # 10) "Positive Change" ∈ evs
    ∧ AxScatter i downs downs_y "red" "v" (7 # 10) "Negative Change" ∈ evs
    ∧ (∀ xs ys color marker alpha label,
          AxScatter i xs ys color marker alpha label ∈ evs →
          (marker = "^" ∧ xs = ups) ∨ (marker = "v" ∧ xs = downs))
    ∧ ∀ t : nat,
        (t ∈ ups ↔ ∃ v, series_pct_change stock_data !! t = Some v
                        ∧ fgt0 v = true)
        ∧ (t ∈ downs ↔ ∃ v, series_pct_change stock_data !! t = Some v
                            ∧ flt0 v = true)
        ∧ ¬ (t ∈ ups ∧ t ∈ downs)
        ∧ (t = 0%nat → (t ∉ ups) ∧ (t ∉ downs))
        ∧ (∀ q, series_pct_change stock_data !! t = Some (Fin q) →
                ((0 < q)%Q ↔ t ∈ ups) ∧ ((q < 0)%Q ↔ t ∈ downs)
                ∧ ((q == 0)%Q → (t ∉ ups) ∧ (t ∉ downs))).

(** A price column whose present prices all equal [c]. *)
Definition constant_prices (c : Q) (col : list price) : Prop :=
  Forall (fun p => ∀ a, p = Some a → (a == c)%Q) col.

(** How often a character occurs in a string. *)
Fixpoint count_char (c : ascii) (s : string) : nat :=
  match s with
  | EmptyString => 0
  | String c' s' => (if Ascii.eqb c' c then 1 else 0) + count_char c s'
  end.

(** [sep.join(l)] *)
Fixpoint str_join (sep : string) (l : list string) : string :=
  match l with
  | [] => EmptyString
  | x :: l' =>
      match l' with
      | [] => x
      | _ :: _ => x +:+ sep +:+ str_join sep l'
      end
  end.

Definition is_download (ev : event) : bool :=
  match ev with
  | YfDownload _ _ _ => true
  | _ => false
  end.

(** The panels drawn for the companies, the first one on axis [k], up to
    the first company that is no column of the table. *)
Fixpoint panels_from (data : DataFrame price) (k : nat) (companies : list string)
  : list event :=
  match companies with
  | [] => []
  | c :: companies' =>
      match getitem data c with
      | Some col => panel_events k c col ++ panels_from data (S k) companies'
      | None => []
      end
  end.

(** A price column in another unit: every present price times [k]. *)
Definition scale_prices (k : Q) (col : list price) : list price :=
  (fun p : price => (fun q => (k * q)%Q) <$> p) <$> col.

(** A string of whitespace only. *)
Fixpoint all_space (s : string) : bool :=
  match s with
  | EmptyString => true
  | String c s' => PyStr.isspace c && all_space s'
  end.

(** The events that put markers on a panel. *)
Definition is_scatter (ev : event) : bool :=
  match ev with
  | AxScatter _ _ _ _ _ _ _ => true
  | _ => false
  end.

(** * Properties *)

(** ** The symbol resolver *)

Lemma company_symbols_lookup_None (s : string) :
  s ∉ company_symbols_items.*1 → company_symbols !! s = None.
Proof. apply not_elem_of_list_to_map_1. Qed.

Lemma available_companies_keys (c : string) :
  c ∈ available_companies ↔ c ∈ dom company_symbols.
Proof.
  unfold company_symbols. rewrite dom_list_to_map_L, elem_of_list_to_set.
  reflexivity.
Qed.

(** The resolver is one-to-one on the catalog names. *)
Lemma resolve_inj_catalog (a b : string) :
  a ∈ available_companies → b ∈ available_companies →
  resolve a = resolve b → a = b.
Proof.
  intros Ha Hb.
  repeat (apply elem_of_cons in Ha as [-> | Ha]);
    try (by apply not_elem_of_nil in Ha);
    repeat (apply elem_of_cons in Hb as [-> | Hb]);
    try (by apply not_elem_of_nil in Hb);
    vm_compute; congruence.
Qed.

(** C5. The resolver maps each of the 15 catalog names to its ticker and
    returns every other string unchanged; being a dictionary lookup with a
    default it has a value on every string. *)
Theorem resolve_catalog_or_passthrough :
  length company_symbols_items = 15
  ∧ Forall (fun entry => resolve entry.1 = entry.2)
      [ ("Apple", "AAPL"); ("Microsoft", "MSFT"); ("Amazon", "AMZN");
        ("Alphabet", "GOOGL"); ("Meta", "META"); ("Tesla", "TSLA");
        ("Nvidia", "NVDA"); ("JPMorgan Chase", "JPM"); ("Walmart", "WMT");
        ("ExxonMobil", "XOM"); ("Johnson & Johnson", "JNJ"); ("Visa", "V");
        ("Mastercard", "MA"); ("Intel", "INTC"); ("Coca-Cola", "KO") ]
  ∧ (∀ s : string, s ∉ company_symbols_items.*1 → resolve s = s)
  ∧ (∀ s : string, s ∈ company_symbols_items.*1 ∨ resolve s = s)
  ∧ resolve "Apple" = "AAPL"
  ∧ resolve "FAKE" = "FAKE".
Proof.
  split; [reflexivity |].
  split; [repeat (constructor; [vm_compute; reflexivity |]); constructor |].
  assert (Hpass : ∀ s : string, s ∉ company_symbols_items.*1 → resolve s = s).
  { intros s Hs. unfold resolve.
    by rewrite (company_symbols_lookup_None s Hs). }
  split; [exact Hpass |].
  split; [| split; vm_compute; reflexivity].
  intros s. destruct (decide (s ∈ company_symbols_items.*1)); auto.
Qed.

(** ** The driver *)

Section Driver.

Variable yf_download :
  list string -> string -> string -> exn + DataFrame price.

(** The events of a failing computation survive in [bind]. *)
Lemma bind_raise {A B} (evs : list event) (e : exn) (k : A -> Eff B) :
  bind (evs, inl e) k = (evs, inl e).
Proof. reflexivity. Qed.

Lemma bind_events {A B} (c : Eff A) (k : A -> Eff B) :
  ∃ evs, (bind c k).1 = c.1 ++ evs.
Proof.
  destruct c as [evs [e | a]]; simpl.
  - exists []. by rewrite app_nil_r.
  - destruct (k a) as [evs' r]. by exists evs'.
Qed.

Lemma try_except_events (c : Eff unit) (h : exn -> Eff unit) :
  ∃ evs, (try_except c h).1 = c.1 ++ evs.
Proof.
  destruct c as [evs [e | a]]; simpl.
  - destruct (h e) as [evs' r]. by exists evs'.
  - exists []. by rewrite app_nil_r.
Qed.

(** Processing starts with the download. *)
Lemma process_starts_with_download (companies : list string) :
  ∃ evs, (process yf_download companies).1
         = YfDownload (symbols_of companies) "2023-01-01" "2024-01-01" :: evs.
Proof.
  unfold process, fetch_stock_data.
  match goal with
  | |- ∃ _, (try_except ?c ?h).1 = _ =>
      destruct (try_except_events c h) as [evs1 ->]
  end.
  match goal with
  | |- ∃ _, (bind ?c ?k).1 ++ _ = _ =>
      destruct (bind_events c k) as [evs2 ->]
  end.
  simpl.
  destruct (yf_download _ _ _); simpl; eauto.
Qed.

Lemma input_loop_break (line : string) (rest : list string)
      (evs : list event) (companies : list string) :
  loop_body line = (evs, Some companies) →
  input_loop (line :: rest) = (evs, Some companies).
Proof. intros H. simpl. by rewrite H. Qed.

Lemma input_loop_continue (line : string) (rest : list string)
      (evs : list event) :
  loop_body line = (evs, None) →
  input_loop (line :: rest)
  = (evs ++ (input_loop rest).1, (input_loop rest).2).
Proof. intros H. simpl. rewrite H. by destruct (input_loop rest). Qed.

Lemma filter_unavailable (companies : list string) :
  filter (fun c => c ∉ available_companies) companies
  = filter (fun c => c ∉ dom company_symbols) companies.
Proof.
  apply list_filter_iff. intros c. by rewrite available_companies_keys.
Qed.

Lemma filter_nil_Forall (companies : list string) :
  filter (fun c => c ∉ dom company_symbols) companies = []
  ↔ Forall (fun c => c ∈ dom company_symbols) companies.
Proof.
  induction companies as [| c cs IH]; [by split |].
  rewrite filter_cons, Forall_cons.
  destruct (decide (c ∉ dom company_symbols)) as [Hc | Hc].
  - split; [discriminate | by intros [? _]].
  - apply dec_stable in Hc. rewrite IH. tauto.
Qed.

(** C6. The validation step lets a line through to the download exactly
    when its comma-separated, trimmed entries are at least two and all are
    keys of the symbol table.  Any other line only prints its report (the
    request for at least 2 companies, or the offending entries) and the
    loop asks again; nothing is downloaded. *)
Theorem validation_gate (line : string) :
  let companies := PyStr.strip <$> PyStr.split ","%char line in
  let offending := filter (fun c => c ∉ dom company_symbols) companies in
  let valid :=
    2 ≤ length companies
    ∧ Forall (fun c => c ∈ dom company_symbols) companies in
  (valid ↔ loop_body line = ([prompt], Some companies))
  ∧ (valid → ∀ rest, ∃ evs,
        main yf_download (line :: rest)
        = (banner ++ prompt
             :: YfDownload (symbols_of companies) "2023-01-01" "2024-01-01"
             :: evs, Done))
  ∧ (¬ valid → ∃ report,
        ((length companies < 2
          ∧ report = [Print (Text "Please enter at least 2 companies.")])
         ∨ (2 ≤ length companies ∧ offending ≠ []
            ∧ report = [Print (InvalidCompanies offending);
                        Print (Text "Please choose from the available list.")]))
        ∧ loop_body line = (prompt :: report, None)
        ∧ (∀ rest, input_loop (line :: rest)
                   = (prompt :: report ++ (input_loop rest).1,
                      (input_loop rest).2))
        ∧ main yf_download [line]
          = (banner ++ prompt :: report ++ [prompt], AwaitingInput))
  ∧ loop_body "Apple"
    = ([prompt; Print (Text "Please enter at least 2 companies.")], None)
  ∧ loop_body "Apple, Zzzz"
    = ([prompt; Print (InvalidCompanies ["Zzzz"]);
        Print (Text "Please choose from the available list.")], None).
Proof.
  intros companies offending valid.
  assert (Hbody : loop_body line
    = if (length companies <? 2)%nat
      then ([prompt; Print (Text "Please enter at least 2 companies.")], None)
      else match offending with
           | _ :: _ =>
               ([prompt; Print (InvalidCompanies offending);
                 Print (Text "Please choose from the available list.")], None)
           | [] => ([prompt], Some companies)
           end).
  { unfold loop_body. fold companies. rewrite filter_unavailable.
    by fold offending. }
  assert (Hnil : offending = [] ↔ Forall (fun c => c ∈ dom company_symbols) companies)
    by apply filter_nil_Forall.
  assert (Hvalid : valid ↔ loop_body line = ([prompt], Some companies)).
  { rewrite Hbody. unfold valid.
    destruct (Nat.ltb_spec (length companies) 2) as [Hlt | Hge].
    - split; [lia | discriminate].
    - rewrite <- Hnil. destruct offending; split; try done.
      by intros [_ ?]. }
  split; [exact Hvalid |].
  split; [| split; [| split; vm_compute; reflexivity]].
  - intros Hv rest. apply Hvalid in Hv.
    destruct (process_starts_with_download companies) as [evs Hevs].
    exists evs. unfold main.
    rewrite (input_loop_break _ rest _ _ Hv). simpl. by rewrite Hevs.
  - intros Hnv.
    assert (Hrej : ∃ report,
      ((length companies < 2
        ∧ report = [Print (Text "Please enter at least 2 companies.")])
       ∨ (2 ≤ length companies ∧ offending ≠ []
          ∧ report = [Print (InvalidCompanies offending);
                      Print (Text "Please choose from the available list.")]))
      ∧ loop_body line = (prompt :: report, None)).
    { rewrite Hbody.
      destruct (Nat.ltb_spec (length companies) 2) as [Hlt | Hge].
      - eexists. split; [left; split; [lia | reflexivity] | reflexivity].
      - destruct offending as [| o os] eqn:Hoff.
        + exfalso. apply Hnv. split; [lia | by apply Hnil].
        + eexists. split; [right; repeat split; [lia | done] | reflexivity]. }
    destruct Hrej as (report & Hwhy & Hlb).
    exists report. split; [exact Hwhy |]. split; [exact Hlb |].
    split.
    + intros rest. by rewrite (input_loop_continue _ rest _ Hlb).
    + unfold main. rewrite (input_loop_continue _ [] _ Hlb). simpl.
      reflexivity.
Qed.

Lemma loop_body_no_render (line : string) :
  Forall (fun ev => renders ev = false) (loop_body line).1.
Proof.
  unfold loop_body.
  destruct (length _ <? 2)%nat; [by repeat constructor |].
  destruct (filter _ _); by repeat constructor.
Qed.

Lemma input_loop_no_render (lines : list string) :
  Forall (fun ev => renders ev = false) (input_loop lines).1.
Proof.
  induction lines as [| line rest IH]; [by repeat constructor |].
  simpl. pose proof (loop_body_no_render line) as Hb.
  destruct (loop_body line) as [evs [cs |]]; [exact Hb |].
  destruct (input_loop rest) as [evs' r]. simpl in *.
  by apply Forall_app.
Qed.

Lemma banner_no_render : Forall (fun ev => renders ev = false) banner.
Proof. by repeat constructor. Qed.

(** C7. When the download raises, the driver prints the error and ends
    the run: after the download request nothing is drawn or shown and the
    matrix is not printed. *)
Theorem fetch_failure_reported
        (lines : list string) (evs : list event)
        (companies : list string) (e : exn) :
  input_loop lines = (evs, Some companies) →
  yf_download (symbols_of companies) "2023-01-01" "2024-01-01" = inl e →
  process yf_download companies
  = ([YfDownload (symbols_of companies) "2023-01-01" "2024-01-01";
      Print (ErrorProcessing e)], inr tt)
  ∧ main yf_download lines
    = (banner ++ evs
         ++ [YfDownload (symbols_of companies) "2023-01-01" "2024-01-01";
             Print (ErrorProcessing e)], Done)
  ∧ Forall (fun ev => renders ev = false) (main yf_download lines).1.
Proof.
  intros Hloop Hfail.
  assert (Hproc : process yf_download companies
    = ([YfDownload (symbols_of companies) "2023-01-01" "2024-01-01";
        Print (ErrorProcessing e)], inr tt)).
  { unfold process, fetch_stock_data. rewrite Hfail. reflexivity. }
  assert (Hmain : main yf_download lines
    = (banner ++ evs
         ++ [YfDownload (symbols_of companies) "2023-01-01" "2024-01-01";
             Print (ErrorProcessing e)], Done)).
  { unfold main. rewrite Hloop, Hproc. reflexivity. }
  split; [exact Hproc |]. split; [exact Hmain |].
  rewrite Hmain. cbv beta iota delta [fst].
  apply Forall_app. split; [apply banner_no_render |].
  apply Forall_app. split; [| by repeat constructor].
  pose proof (input_loop_no_render lines) as H. by rewrite Hloop in H.
Qed.

End Driver.

(** A provider that is off line, on the selection "Apple, Tesla". *)
Lemma fetch_failure_reported_witness :
  let offline := fun (_ : list string) (_ _ : string) =>
                   inl (DownloadError "no network") : exn + DataFrame price in
  Forall (fun ev => renders ev = false) (main offline ["Apple, Tesla"]).1.
Proof.
  intros offline.
  apply (fetch_failure_reported offline ["Apple, Tesla"] [prompt]
           ["Apple"; "Tesla"] (DownloadError "no network")).
  - vm_compute. reflexivity.
  - reflexivity.
Defined.

(** ** The heatmap call *)

(** C9, as amended.  For every price table the heatmap is drawn from the
    correlation matrix with the sequential colormap "Blues" (not a diverging
    one), centred at 0, with colour bounds -1 and 1, annotated cells, square
    cells, gridlines of width 0.5, and then given its title. *)
Theorem heatmap_call_blues (data : DataFrame price) :
  ∃ kw : heatmap_args,
    create_correlation_heatmap data
    = ([PltFigure 12 10;
        SnsHeatmap (corr (pct_change data)) kw;
        PltTitle "Stock Price Correlation Heatmap" 16;
        PltTightLayout], inr (corr (pct_change data)))
    ∧ cmap kw = "Blues"
    ∧ colormap_class (cmap kw) = Some Sequential
    ∧ center kw = 0%Z ∧ vmin kw = (-1)%Z ∧ vmax kw = 1%Z
    ∧ annot kw = true ∧ square kw = true
    ∧ (linewidths kw == 1 # 2)%Q.
Proof.
  eexists. split; [reflexivity |].
  repeat split.
Qed.

(** C9 as stated fails: on a table of two companies the colormap handed to
    the heatmap is not a diverging one. *)
Lemma heatmap_cmap_not_diverging :
  let data : DataFrame price :=
    [ ("AAPL", [Some 100%Q; Some 110%Q; Some 99%Q]);
      ("MSFT", [Some 50%Q; Some 51%Q; Some 53%Q]) ] in
  ∃ (M : Matrix) (kw : heatmap_args),
    (create_correlation_heatmap data).1 !! 1%nat = Some (SnsHeatmap M kw)
    ∧ colormap_class (cmap kw) ≠ Some Diverging.
Proof.
  intros data. eexists _, _. split; [reflexivity |].
  vm_compute. discriminate.
Qed.

(** ** Returns of one column *)

Lemma length_shift (col : list price) : length (shift col) = length col.
Proof.
  destruct col as [| p col]; [reflexivity |].
  unfold shift. rewrite removelast_firstn_len. cbn [length].
  rewrite length_take. cbn [length Nat.pred]. lia.
Qed.

Lemma length_series_pct_change (col : list price) :
  length (series_pct_change col) = length col.
Proof.
  unfold series_pct_change. rewrite length_zip_with, length_shift. lia.
Qed.

Lemma shift_lookup_0 (col : list price) :
  col ≠ [] → shift col !! 0%nat = Some None.
Proof. by destruct col. Qed.

Lemma removelast_lookup {A} (l : list A) (t : nat) :
  S t < length l → removelast l !! t = l !! t.
Proof.
  intros Hlt. rewrite removelast_firstn_len.
  apply lookup_take_lt. lia.
Qed.

(** Row [t + 1] of the shifted column is row [t] of the column. *)
Lemma shift_lookup_S (col : list price) (t : nat) :
  S t < length col → shift col !! S t = col !! t.
Proof.
  intros Hlt. destruct col as [| p col]; [simpl in Hlt; lia |].
  unfold shift. cbn [lookup list_lookup].
  apply removelast_lookup. exact Hlt.
Qed.

Lemma fdiv_NaN_r (a : fval) : fdiv a NaN = NaN.
Proof. by destruct a. Qed.

Lemma series_pct_change_row0 (col : list price) :
  col ≠ [] → series_pct_change col !! 0%nat = Some NaN.
Proof. destruct col as [| p col]; [done |]. intros _. simpl. by destruct p. Qed.

Lemma series_pct_change_lookup (col : list price) (t : nat) (p1 p0 : price) :
  col !! S t = Some p1 → col !! t = Some p0 →
  series_pct_change col !! S t
  = Some (fsub (fdiv (of_price p1) (of_price p0)) (Fin 1)).
Proof.
  intros H1 H0. unfold series_pct_change.
  rewrite lookup_zip_with, H1. simpl.
  rewrite shift_lookup_S by (by apply lookup_lt_Some in H1).
  rewrite H0. reflexivity.
Qed.

(** ** The price chart renderer *)

Lemma elem_of_bool_index_seq (mask : list bool) (k t : nat) :
  t ∈ bool_index (seq k (length mask)) mask
  ↔ k ≤ t ∧ mask !! (t - k) = Some true.
Proof.
  revert k. induction mask as [| b mask IH]; intros k.
  - simpl. split; [by intros ?%not_elem_of_nil | by intros [_ ?]].
  - cbn [length seq bool_index].
    assert (Hrec : t ∈ bool_index (seq (S k) (length mask)) mask
                   ↔ S k ≤ t ∧ (b :: mask) !! (t - k) = Some true).
    { rewrite IH. split; intros [Hle Hl]; (split; [lia |]).
      - by replace (t - k) with (S (t - S k)) by lia.
      - by replace (t - k) with (S (t - S k)) in Hl by lia. }
    destruct b.
    + rewrite elem_of_cons, Hrec. split.
      * intros [-> | [Hle Hl]]; [| split; [lia | done]].
        split; [lia |]. by rewrite Nat.sub_diag.
      * intros [Hle Hl]. destruct (decide (t = k)) as [-> | Hne]; [by left |].
        right. split; [lia | done].
    + rewrite Hrec. split.
      * intros [Hle Hl]. split; [lia | done].
      * intros [Hle Hl]. destruct (decide (t = k)) as [-> | Hne].
        -- by rewrite Nat.sub_diag in Hl.
        -- split; [lia | done].
Qed.

(** The days picked by a sign test on the returns. *)
Lemma elem_of_marked_days (test : fval -> bool) (col : list price) (t : nat) :
  t ∈ bool_index (index_of col) (test <$> series_pct_change col)
  ↔ ∃ v, series_pct_change col !! t = Some v ∧ test v = true.
Proof.
  unfold index_of.
  rewrite <- (length_series_pct_change col),
          <- (length_fmap test (series_pct_change col)).
  rewrite elem_of_bool_index_seq, Nat.sub_0_r, list_lookup_fmap.
  destruct (series_pct_change col !! t) as [v |]; simpl.
  - split.
    + intros [_ [= Hv]]. eauto.
    + intros (v' & [= <-] & Hv). split; [lia | by rewrite Hv].
  - split; [by intros [_ ?] | by intros (? & ? & _)].
Qed.

Lemma fgt0_flt0_exclusive (v : fval) : ¬ (fgt0 v = true ∧ flt0 v = true).
Proof.
  destruct v as [q | | |]; simpl; intros [Hg Hl]; try discriminate.
  apply negb_true_iff in Hg, Hl.
  destruct (Qle_bool q 0) eqn:H1; [discriminate |].
  destruct (Qle_bool 0 q) eqn:H2; [discriminate |].
  assert (¬ (q <= 0)%Q) by (rewrite <- Qle_bool_iff; congruence).
  assert (¬ (0 <= q)%Q) by (rewrite <- Qle_bool_iff; congruence).
  lra.
Qed.

Lemma fgt0_iff (q : Q) : fgt0 (Fin q) = true ↔ (0 < q)%Q.
Proof.
  simpl. rewrite negb_true_iff, <- not_true_iff_false, Qle_bool_iff. lra.
Qed.

Lemma flt0_iff (q : Q) : flt0 (Fin q) = true ↔ (q < 0)%Q.
Proof.
  simpl. rewrite negb_true_iff, <- not_true_iff_false, Qle_bool_iff. lra.
Qed.

Lemma bind_inr_inv {A B} (c : Eff A) (k : A -> Eff B)
      (evs : list event) (b : B) :
  bind c k = (evs, inr b) →
  ∃ e1 a e2, c = (e1, inr a) ∧ k a = (e2, inr b) ∧ evs = e1 ++ e2.
Proof.
  destruct c as [e1 [e | a]]; simpl; [discriminate |].
  destruct (k a) as [e2 r] eqn:Hk. intros [= <- ->]. eauto 6.
Qed.

(** A loop that ends normally ran its body normally on every element, and
    emitted what the bodies emitted. *)
Lemma for_enumerate_inr_inv {A} (body : nat -> A -> Eff unit)
      (l : list A) (k : nat) (evs : list event) (u : unit) :
  for_enumerate k l body = (evs, inr u) →
  (∀ i x, l !! i = Some x →
          ∃ p, body (k + i) x = (p, inr tt) ∧ ∀ ev, ev ∈ p → ev ∈ evs)
  ∧ (∀ ev, ev ∈ evs →
           ∃ i x p, l !! i = Some x ∧ body (k + i) x = (p, inr tt) ∧ ev ∈ p).
Proof.
  revert k evs. induction l as [| y l IH]; intros k evs Hrun.
  - simpl in Hrun. injection Hrun as <- _. split.
    + intros i x Hi. by rewrite lookup_nil in Hi.
    + intros ev Hev. by apply not_elem_of_nil in Hev.
  - cbn [for_enumerate] in Hrun.
    apply bind_inr_inv in Hrun as (e1 & [] & e2 & Hy & Hrest & ->).
    apply IH in Hrest as [Hall Honly]. split.
    + intros [| i] x Hi.
      * injection Hi as ->. exists e1. rewrite Nat.add_0_r.
        split; [done |]. intros ev Hev. apply elem_of_app. by left.
      * cbn [lookup list_lookup] in Hi.
        destruct (Hall i x Hi) as (p & Hp & Hsub).
        exists p. replace (k + S i) with (S k + i) by lia.
        split; [done |]. intros ev Hev. apply elem_of_app. right. auto.
    + intros ev [Hev | Hev]%elem_of_app.
      * exists 0, y, e1. rewrite Nat.add_0_r. done.
      * destruct (Honly ev Hev) as (i & x & p & Hi & Hp & Hin).
        exists (S i), x, p. replace (k + S i) with (S k + i) by lia. done.
Qed.

Lemma chart_panel_inr_inv (data : DataFrame price) (i : nat) (company : string)
      (evs : list event) (u : unit) :
  chart_panel data i company = (evs, inr u) →
  ∃ stock_data, getitem data company = Some stock_data
                ∧ evs = panel_events i company stock_data.
Proof.
  unfold chart_panel. destruct (getitem data company) as [col |]; [| discriminate].
  intros [= <- _]. by exists col.
Qed.

Lemma markers_of_normal_run
      (data : DataFrame price) (companies : list string)
      (evs : list event) (i : nat) (company : string) :
  create_candlestick_charts data companies = (evs, inr tt) →
  companies !! i = Some company →
  panel_markers evs i company data.
Proof.
  intros Hrun Hi. unfold panel_markers, create_candlestick_charts in *.
  apply bind_inr_inv in Hrun as (e1 & [] & e2 & Hsub & Hrest & ->).
  apply bind_inr_inv in Hrest as (e3 & [] & e4 & Hloop & Hlast & ->).
  injection Hlast as <-.
  assert (He1 : e1 = [PltSubplots (length companies) 1 12 (5 * length companies)]).
  { destruct (length companies); [discriminate |]. by injection Hsub as <-. }
  apply for_enumerate_inr_inv in Hloop as [Hall Honly].
  destruct (Hall i company Hi) as (p & Hp & Hin).
  apply chart_panel_inr_inv in Hp as (col & Hcol & ->).
  set (ups := bool_index (index_of col) (fgt0 <$> series_pct_change col)).
  set (downs := bool_index (index_of col) (flt0 <$> series_pct_change col)).
  assert (Hups : ∀ t, t ∈ ups ↔ ∃ v, series_pct_change col !! t = Some v
                                     ∧ fgt0 v = true)
    by (intros t; apply elem_of_marked_days).
  assert (Hdowns : ∀ t, t ∈ downs ↔ ∃ v, series_pct_change col !! t = Some v
                                         ∧ flt0 v = true)
    by (intros t; apply elem_of_marked_days).
  exists col, ups, downs, (bool_index col (fgt0 <$> series_pct_change col)),
    (bool_index col (flt0 <$> series_pct_change col)).
  split; [exact Hcol |].
  split.
  { apply elem_of_app. right. apply elem_of_app. left. apply Hin.
    unfold panel_events. rewrite !elem_of_cons. do 4 right. by left. }
  split.
  { apply elem_of_app. right. apply elem_of_app. left. apply Hin.
    unfold panel_events. rewrite !elem_of_cons. do 5 right. by left. }
  split.
  { intros xs ys color marker alpha label Hev.
    apply elem_of_app in Hev as [Hev | Hev].
    { subst e1. apply list_elem_of_singleton in Hev. discriminate. }
    apply elem_of_app in Hev as [Hev | Hev].
    2: { apply list_elem_of_singleton in Hev. discriminate. }
    destruct (Honly _ Hev) as (j & c & p & Hj & Hp & Hinp).
    apply chart_panel_inr_inv in Hp as (col' & Hcol' & ->).
    unfold panel_events in Hinp. simpl in Hinp.
    repeat (apply elem_of_cons in Hinp as [Hinp | Hinp]; [try discriminate |]);
      try (by apply not_elem_of_nil in Hinp).
    - injection Hinp as -> -> _ _ -> _ _. left. split; [done |].
      assert (c = company) as -> by congruence.
      assert (col' = col) as -> by congruence. done.
    - injection Hinp as -> -> _ _ -> _ _. right. split; [done |].
      assert (c = company) as -> by congruence.
      assert (col' = col) as -> by congruence. done. }
  intros t. split; [apply Hups |]. split; [apply Hdowns |].
  split.
  { rewrite Hups, Hdowns. intros [(v & Hv & Hg) (v' & Hv' & Hl)].
    assert (v' = v) as -> by congruence.
    by apply (fgt0_flt0_exclusive v). }
  split.
  { intros ->. rewrite Hups, Hdowns.
    destruct col as [| p0 col].
    - split; intros (v & Hv & _); discriminate Hv.
    - rewrite series_pct_change_row0 by done.
      split; intros (v & [= <-] & Hv); discriminate. }
  intros q Hq. rewrite Hups, Hdowns, Hq.
  split; [| split].
  - rewrite <- fgt0_iff. split; [eauto | by intros (v & [= <-] & Hv)].
  - rewrite <- flt0_iff. split; [eauto | by intros (v & [= <-] & Hv)].
  - intros Hz. split; intros (v & [= <-] & Hv).
    + apply fgt0_iff in Hv. lra.
    + apply flt0_iff in Hv. lra.
Qed.

(** The loop over the companies ends normally when each company is a
    column of the table. *)
Lemma for_enumerate_chart_panel_ok (data : DataFrame price)
      (companies : list string) (k : nat) :
  Forall (fun c => is_Some (getitem data c)) companies →
  ∃ evs, for_enumerate k companies (chart_panel data) = (evs, inr tt).
Proof.
  intros Hall. revert k. induction Hall as [| c cs [col Hc] _ IH]; intros k.
  - by exists [].
  - destruct (IH (S k)) as [evs Hevs].
    exists (panel_events k c col ++ evs).
    cbn [for_enumerate]. unfold chart_panel at 1. rewrite Hc.
    cbn. rewrite Hevs. reflexivity.
Qed.

(** X17. Given a table that has a column for each of the companies, the
    renderer ends normally and the panel of every company marks a day with
    the upward marker exactly when the day's percentage change is above 0
    and with the downward marker exactly when it is below 0, and carries no
    other marker; so no day has both, and a day of zero change and the
    first day have none. *)
Theorem markers_follow_sign
        (data : DataFrame price) (companies : list string) :
  companies ≠ [] →
  Forall (fun c => is_Some (getitem data c)) companies →
  ∃ evs : list event,
    create_candlestick_charts data companies = (evs, inr tt)
    ∧ ∀ i company, companies !! i = Some company →
                   panel_markers evs i company data.
Proof.
  intros Hne Hall.
  destruct (for_enumerate_chart_panel_ok data companies 0 Hall) as [evs Hevs].
  assert (Hrun : ∃ evs', create_candlestick_charts data companies = (evs', inr tt)).
  { unfold create_candlestick_charts. rewrite Hevs.
    destruct companies as [| c cs]; [done |]. cbn. eauto. }
  destruct Hrun as [evs' Hrun]. exists evs'. split; [exact Hrun |].
  intros i company Hi. by apply (markers_of_normal_run data companies).
Qed.

(** On a four-day column: day 1 rises, day 2 falls, day 3 is flat. *)
Lemma markers_follow_sign_witness :
  let data : DataFrame price :=
    [("Apple", [Some 100%Q; Some 110%Q; Some 99%Q; Some 99%Q])] in
  ∃ evs : list event,
    create_candlestick_charts data ["Apple"] = (evs, inr tt)
    ∧ panel_markers evs 0 "Apple" data.
Proof.
  intros data.
  assert (Hcols : Forall (fun c => is_Some (getitem data c)) ["Apple"]).
  { repeat constructor. by eexists. }
  destruct (markers_follow_sign data ["Apple"] ltac:(done) Hcols)
    as (evs & Hrun & Hpanels).
  exists evs. split; [exact Hrun |]. by apply Hpanels.
Defined.

(** Filling changes nothing on a column without missing prices, so both
    defaults of pandas give the same returns there. *)
Lemma ffill_from_no_gaps (last : price) (col : list price) :
  Forall is_Some col → ffill_from last col = col.
Proof.
  intros Hall. revert last. induction Hall as [| p col [q ->] _ IH]; intros last.
  - reflexivity.
  - simpl. by rewrite IH.
Qed.

Lemma series_pct_change_pad_no_gaps (col : list price) :
  Forall is_Some col → series_pct_change_pad col = series_pct_change col.
Proof.
  intros Hall. unfold series_pct_change_pad, ffill.
  by rewrite ffill_from_no_gaps.
Qed.

(** The two ways of writing the fractional change agree: pandas computes
    [p1 / p0 - 1], the formula reads [(p1 - p0) / p0]. *)
Lemma pct_formula (p1 p0 : price) :
  feq (fsub (fdiv (of_price p1) (of_price p0)) (Fin 1))
      (fdiv (fsub (of_price p1) (of_price p0)) (of_price p0)).
Proof.
  destruct p1 as [x |], p0 as [y |]; simpl; try exact I.
  destruct (Qeq_bool y 0) eqn:Hy.
  - apply Qeq_bool_iff in Hy.
    assert (Hxy : (x - y == x)%Q) by (rewrite Hy; ring).
    assert (Hz : Qeq_bool (x - y) 0 = Qeq_bool x 0).
    { destruct (Qeq_bool x 0) eqn:Hx.
      - apply Qeq_bool_iff. apply Qeq_bool_iff in Hx. by rewrite Hxy.
      - apply not_true_iff_false. rewrite Qeq_bool_iff.
        apply not_true_iff_false in Hx. rewrite Qeq_bool_iff in Hx.
        by rewrite Hxy. }
    assert (Hl : Qle_bool 0 (x - y) = Qle_bool 0 x).
    { destruct (Qle_bool 0 x) eqn:Hx.
      - apply Qle_bool_iff. apply Qle_bool_iff in Hx. by rewrite Hxy.
      - apply not_true_iff_false. rewrite Qle_bool_iff.
        apply not_true_iff_false in Hx. rewrite Qle_bool_iff in Hx.
        by rewrite Hxy. }
    rewrite Hz, Hl.
    destruct (Qeq_bool x 0); [exact I |].
    destruct (Qle_bool 0 x); exact I.
  - simpl. apply not_true_iff_false in Hy. rewrite Qeq_bool_iff in Hy.
    field. exact Hy.
Qed.

Lemma pct_change_lookup (data : DataFrame price) (i : nat)
      (label : string) (col : list price) :
  data !! i = Some (label, col) →
  pct_change data !! i = Some (label, series_pct_change col).
Proof. intros H. unfold pct_change. by rewrite list_lookup_fmap, H. Qed.

(** C2. Every column of the returns table has the length of its price
    column, is missing at row 0, and holds at every later row the
    fractional change [(price[t] - price[t-1]) / price[t-1]]; the prices
    100, 110, 99 give the returns missing, 1/10, -1/10. *)
Theorem returns_table_formula
        (data : DataFrame price) (i : nat) (label : string) (col : list price) :
  data !! i = Some (label, col) →
  ∃ rets : list fval,
    pct_change data !! i = Some (label, rets)
    ∧ length rets = length col
    ∧ (col ≠ [] → rets !! 0%nat = Some NaN)
    ∧ (∀ t p1 p0, col !! S t = Some p1 → col !! t = Some p0 →
         ∃ v, rets !! S t = Some v
              ∧ feq v (fdiv (fsub (of_price p1) (of_price p0)) (of_price p0)))
    ∧ (∀ t x y, col !! S t = Some (Some x) → col !! t = Some (Some y) →
         ¬ (y == 0)%Q →
         ∃ r, rets !! S t = Some (Fin r) ∧ (r == (x - y) / y)%Q)
    ∧ Forall2 feq (series_pct_change [Some 100%Q; Some 110%Q; Some 99%Q])
                  [NaN; Fin (1 # 10); Fin (- 1 # 10)].
Proof.
  intros Hcol. exists (series_pct_change col).
  split; [by apply pct_change_lookup |].
  split; [apply length_series_pct_change |].
  split; [apply series_pct_change_row0 |].
  split; [| split].
  - intros t p1 p0 H1 H0. eexists. split.
    + by apply series_pct_change_lookup.
    + apply pct_formula.
  - intros t x y H1 H0 Hy.
    rewrite (series_pct_change_lookup col t _ _ H1 H0). simpl.
    destruct (Qeq_bool y 0) eqn:E; [by apply Qeq_bool_iff in E |].
    eexists. split; [reflexivity |]. field. exact Hy.
  - repeat constructor; vm_compute; reflexivity.
Qed.

Lemma returns_table_formula_witness :
  ∃ rets : list fval,
    pct_change [("AAPL", [Some 100%Q; Some 110%Q; Some 99%Q])] !! 0%nat
    = Some ("AAPL", rets)
    ∧ length rets = 3%nat.
Proof.
  destruct (returns_table_formula
              [("AAPL", [Some 100%Q; Some 110%Q; Some 99%Q])] 0 "AAPL"
              [Some 100%Q; Some 110%Q; Some 99%Q] eq_refl)
    as (rets & Hl & Hlen & _).
  exists rets. split; [exact Hl | exact Hlen].
Defined.

(** ** Sums of rationals *)

Section Sums.

Local Open Scope Q_scope.

Lemma dot_nil_l (b : list Q) : dot [] b = 0.
Proof. reflexivity. Qed.

Lemma dot_nil_r (a : list Q) : dot a [] = 0.
Proof. by destruct a. Qed.

Lemma dot_cons (x y : Q) (a b : list Q) :
  dot (x :: a) (y :: b) = x * y + dot a b.
Proof. reflexivity. Qed.

Lemma dot_comm (a b : list Q) : dot a b == dot b a.
Proof.
  revert b. induction a as [| x a IH]; intros [| y b];
    rewrite ?dot_nil_l, ?dot_nil_r, ?dot_cons; try reflexivity.
  rewrite IH. ring.
Qed.

Lemma Qsquare_nonneg (z : Q) : 0 <= z * z.
Proof. nra. Qed.

Lemma dot_self_nonneg (a : list Q) : 0 <= dot a a.
Proof.
  induction a as [| x a IH]; [by rewrite dot_nil_l |].
  rewrite dot_cons. nra.
Qed.

(** The quadratic form of two lists is a sum of squares. *)
Lemma dot_quadratic_nonneg (a b : list Q) (u v : Q) :
  0 <= dot a a * (u * u) + 2 * dot a b * (u * v) + dot b b * (v * v).
Proof.
  revert b. induction a as [| x a IH]; intros [| y b].
  - rewrite !dot_nil_l. lra.
  - rewrite !dot_nil_l. pose proof (dot_self_nonneg (y :: b)). nra.
  - rewrite !dot_nil_r. pose proof (dot_self_nonneg (x :: a)). nra.
  - rewrite !dot_cons. specialize (IH b).
    pose proof (Qsquare_nonneg (x * u + y * v)).
    nra.
Qed.

(** The Cauchy-Schwarz inequality. *)
Lemma cauchy_schwarz (a b : list Q) :
  dot a b * dot a b <= dot a a * dot b b.
Proof.
  pose proof (dot_self_nonneg a) as HA.
  pose proof (dot_self_nonneg b) as HB.
  pose proof (dot_quadratic_nonneg a b) as Hq.
  set (A := dot a a) in *. set (B := dot b b) in *. set (S := dot a b) in *.
  destruct (Qlt_le_dec 0 A) as [Hpos | Hle].
  - specialize (Hq (- S) A).
    assert (0 <= A * (A * B - S * S)) by nra.
    nra.
  - assert (HA0 : A == 0) by lra.
    specialize (Hq (- (B + 1)) S).
    assert (0 <= S * S) by nra.
    nra.
Qed.

Lemma Qsum_all_eq (c : Q) (l : list Q) :
  Forall (fun x => x == c) l →
  Qsum l == inject_Z (Z.of_nat (length l)) * c.
Proof.
  induction 1 as [| x l Hx _ IH].
  - simpl. ring.
  - change (Qsum (x :: l)) with (x + Qsum l). rewrite IH, Hx.
    rewrite length_cons, Nat2Z.inj_succ. unfold Z.succ.
    rewrite inject_Z_plus. ring.
Qed.

Lemma mean_all_eq (c : Q) (l : list Q) :
  l ≠ [] → Forall (fun x => x == c) l → mean l == c.
Proof.
  intros Hne Hall. unfold mean. rewrite (Qsum_all_eq c l Hall).
  field. destruct l as [| x l]; [done |].
  rewrite length_cons, Nat2Z.inj_succ.
  change 0 with (inject_Z 0). rewrite inject_Z_injective. lia.
Qed.

Lemma dot_all_zero (a b : list Q) :
  Forall (fun x => x == 0) a → dot a b == 0.
Proof.
  intros Ha. revert b. induction Ha as [| x a Hx _ IH]; intros [| y b];
    rewrite ?dot_nil_l, ?dot_nil_r, ?dot_cons; try reflexivity.
  rewrite IH, Hx. ring.
Qed.

(** A list whose values are all equal has no spread. *)
Lemma ssqdm_all_eq (c : Q) (l : list Q) :
  Forall (fun x => x == c) l → ssqdm l == 0.
Proof.
  intros Hall. destruct l as [| x l]; [reflexivity |].
  unfold ssqdm. apply dot_all_zero. unfold dev.
  pose proof (mean_all_eq c (x :: l) ltac:(done) Hall) as Hm.
  apply Forall_fmap. eapply Forall_impl; [exact Hall |].
  intros y Hy. simpl. rewrite Hy, Hm. ring.
Qed.

End Sums.

(** ** Pearson correlation of two columns *)

Lemma Qeq_bool_0_proper (x y : Q) :
  (x == y)%Q → Qeq_bool x 0 = Qeq_bool y 0.
Proof.
  intros Hxy. destruct (Qeq_bool y 0) eqn:Hy.
  - apply Qeq_bool_iff. apply Qeq_bool_iff in Hy. by rewrite Hxy.
  - apply not_true_iff_false. rewrite Qeq_bool_iff.
    apply not_true_iff_false in Hy. rewrite Qeq_bool_iff in Hy. by rewrite Hxy.
Qed.

Lemma complete_rows_swap (xs ys : list fval) :
  complete_rows ys xs = (fun p => (p.2, p.1)) <$> complete_rows xs ys.
Proof.
  revert ys. induction xs as [| x xs IH]; intros [| y ys]; try reflexivity.
  simpl. rewrite IH. by destruct x, y.
Qed.

Lemma complete_rows_self (xs : list fval) :
  complete_rows xs xs = (fun q => (q, q)) <$> finite_values xs.
Proof.
  induction xs as [| x xs IH]; [reflexivity |].
  destruct x; simpl; by rewrite IH.
Qed.

Lemma complete_rows_fst_Forall (P : Q -> Prop) (xs ys : list fval) :
  Forall P (finite_values xs) → Forall P (complete_rows xs ys).*1.
Proof.
  revert ys. induction xs as [| x xs IH]; intros [| y ys] Hall;
    try by constructor.
  destruct x as [a | | |]; simpl in *; try by apply IH.
  apply Forall_cons in Hall as [Ha Hall].
  destruct y; simpl; try by apply IH.
  constructor; [exact Ha | by apply IH].
Qed.

Lemma pearson_sym (xs ys : list fval) : pearson xs ys = pearson ys xs.
Proof.
  unfold pearson. rewrite (complete_rows_swap xs ys).
  set (rows := complete_rows xs ys).
  rewrite length_fmap, <- !list_fmap_compose.
  change (fst ∘ (fun p : Q * Q => (p.2, p.1)) <$> rows) with (rows.*2).
  change (snd ∘ (fun p : Q * Q => (p.2, p.1)) <$> rows) with (rows.*1).
  destruct (length rows <? 1)%nat; [reflexivity |].
  assert (Hd : (ssqdm rows.*2 * ssqdm rows.*1 == ssqdm rows.*1 * ssqdm rows.*2)%Q)
    by ring.
  rewrite (Qeq_bool_0_proper _ _ Hd).
  destruct (Qeq_bool _ 0); [reflexivity |].
  rewrite (Qeq_eqR _ _ Hd).
  unfold covxy.
  by rewrite (Qeq_eqR _ _ (dot_comm (dev rows.*2) (dev rows.*1))).
Qed.

(** The divisor of the correlation is zero exactly when the product under
    the root is, which is what [pearson] tests. *)
Lemma divisor_zero_iff (vx vy : list Q) :
  sqrt (Q2R (ssqdm vx * ssqdm vy)) = 0%R
  ↔ Qeq_bool (ssqdm vx * ssqdm vy) 0 = true.
Proof.
  assert (Hnn : (0 <= Q2R (ssqdm vx * ssqdm vy))%R).
  { replace 0%R with (Q2R 0) by (unfold Q2R; simpl; lra).
    apply Qle_Rle. pose proof (dot_self_nonneg (dev vx)).
    pose proof (dot_self_nonneg (dev vy)). unfold ssqdm. nra. }
  rewrite Qeq_bool_iff. split.
  - intros Hs. apply sqrt_eq_0 in Hs; [| exact Hnn].
    apply eqR_Qeq. rewrite Hs. unfold Q2R; simpl; lra.
  - intros Hd. rewrite (Qeq_eqR _ _ Hd).
    replace (Q2R 0) with 0%R by (unfold Q2R; simpl; lra). apply sqrt_0.
Qed.

Lemma pearson_bounds (xs ys : list fval) (r : R) :
  pearson xs ys = Some r → (-1 <= r <= 1)%R.
Proof.
  unfold pearson. set (rows := complete_rows xs ys).
  destruct (length rows <? 1)%nat; [discriminate |].
  destruct (Qeq_bool _ 0) eqn:Hd; [discriminate |].
  intros [= <-].
  set (c := covxy rows.*1 rows.*2).
  set (d := (ssqdm rows.*1 * ssqdm rows.*2)%Q) in *.
  assert (Hcs : (c * c <= d)%Q) by apply cauchy_schwarz.
  assert (Hdne : ¬ (d == 0)%Q).
  { rewrite <- Qeq_bool_iff. congruence. }
  assert (Hdpos : (0 < d)%Q).
  { pose proof (dot_self_nonneg (dev rows.*1)).
    pose proof (dot_self_nonneg (dev rows.*2)).
    assert (0 <= d)%Q by (unfold d, ssqdm; nra).
    destruct (Qlt_le_dec 0 d); [done |]. exfalso. apply Hdne. lra. }
  apply Qle_Rle in Hcs. rewrite Q2R_mult in Hcs.
  apply Qlt_Rlt in Hdpos.
  replace (Q2R 0) with 0%R in Hdpos by (unfold Q2R; simpl; lra).
  set (C := Q2R c) in *. set (D := Q2R d) in *.
  pose proof (sqrt_lt_R0 D Hdpos) as Hs.
  pose proof (sqrt_sqrt D (Rlt_le _ _ Hdpos)) as Hss.
  set (s := sqrt D) in *.
  assert (Hr : (C / s * s = C)%R) by (field; lra).
  set (r := (C / s)%R) in *.
  assert (Hc : (- s <= C <= s)%R) by (split; nra).
  split; apply Rmult_le_reg_r with s; lra.
Qed.

Lemma diag_pairs_fst {A} (l : list A) : ((fun x => (x, x)) <$> l).*1 = l.
Proof. induction l as [| x l IH]; [reflexivity |]. simpl. f_equal. exact IH. Qed.

Lemma diag_pairs_snd {A} (l : list A) : ((fun x => (x, x)) <$> l).*2 = l.
Proof. induction l as [| x l IH]; [reflexivity |]. simpl. f_equal. exact IH. Qed.

Lemma pearson_self (xs : list fval) :
  nonzero_variance xs → pearson xs xs = Some 1%R.
Proof.
  unfold nonzero_variance, pearson. rewrite complete_rows_self.
  generalize (finite_values xs). intros f Hvar.
  rewrite length_fmap, diag_pairs_fst, diag_pairs_snd.
  assert (Hlen : (length f <? 1)%nat = false).
  { destruct f; [exfalso; by apply Hvar | reflexivity]. }
  rewrite Hlen.
  assert (Hpos : (0 < ssqdm f)%Q).
  { pose proof (dot_self_nonneg (dev f)). unfold ssqdm in *.
    destruct (Qlt_le_dec 0 (dot (dev f) (dev f))); [done |].
    exfalso. apply Hvar. lra. }
  destruct (Qeq_bool (ssqdm f * ssqdm f) 0) eqn:Hd.
  { apply Qeq_bool_iff in Hd. exfalso. nra. }
  f_equal. change (covxy f f) with (ssqdm f).
  rewrite Q2R_mult. apply Qlt_Rlt in Hpos.
  replace (Q2R 0) with 0%R in Hpos by (unfold Q2R; simpl; lra).
  rewrite sqrt_square by lra. field. lra.
Qed.

(** A column whose finite values are all equal correlates with nothing. *)
Lemma pearson_constant_l (c : Q) (xs ys : list fval) :
  Forall (fun q => (q == c)%Q) (finite_values xs) → pearson xs ys = None.
Proof.
  intros Hall. unfold pearson. set (rows := complete_rows xs ys).
  destruct (length rows <? 1)%nat; [reflexivity |].
  assert (Hz : (ssqdm rows.*1 == 0)%Q).
  { apply (ssqdm_all_eq c). by apply complete_rows_fst_Forall. }
  assert (Hd : (ssqdm rows.*1 * ssqdm rows.*2 == 0)%Q)
    by (rewrite Hz; ring).
  apply Qeq_bool_iff in Hd. by rewrite Hd.
Qed.

(** ** The correlation matrix *)

Lemma cell_corr (df : DataFrame fval) (i j : nat) :
  cell (corr df) i j
  = ci ← df !! i; cj ← df !! j; Some (pearson ci.2 cj.2).
Proof.
  unfold cell, corr. simpl. rewrite list_lookup_fmap.
  destruct (df !! i) as [ci |]; [| reflexivity]. simpl.
  rewrite list_lookup_fmap. by destruct (df !! j).
Qed.

Lemma cell_corr_pct (data : DataFrame price) (i j : nat) :
  cell (corr (pct_change data)) i j
  = ci ← data !! i; cj ← data !! j;
    Some (pearson (series_pct_change ci.2) (series_pct_change cj.2)).
Proof.
  rewrite cell_corr. unfold pct_change. rewrite !list_lookup_fmap.
  destruct (data !! i) as [ci |]; [| reflexivity].
  by destruct (data !! j).
Qed.

Lemma create_correlation_heatmap_value (data : DataFrame price)
      (evs : list event) (r : exn + Matrix) :
  create_correlation_heatmap data = (evs, r) →
  r = inr (corr (pct_change data)).
Proof. by intros [= _ <-]. Qed.

Lemma finite_values_Forall (P : Q -> Prop) (xs : list fval) :
  Forall (fun v => ∀ q, v = Fin q → P q) xs → Forall P (finite_values xs).
Proof.
  induction 1 as [| v xs Hv _ IH]; [constructor |].
  destruct v as [q | | |]; simpl; try exact IH.
  constructor; [by apply Hv | exact IH].
Qed.

(** The returns of a constant price column are zero wherever they are
    finite. *)
Lemma constant_prices_returns (c : Q) (col : list price) :
  constant_prices c col →
  Forall (fun q => (q == 0)%Q) (finite_values (series_pct_change col)).
Proof.
  intros Hconst. apply finite_values_Forall, Forall_lookup.
  intros t v Hv q ->.
  destruct t as [| t].
  { rewrite series_pct_change_row0 in Hv; [discriminate |].
    intros ->. discriminate Hv. }
  unfold series_pct_change in Hv.
  apply lookup_zip_with_Some in Hv as (x & y & Hq & Hx & Hy).
  rewrite shift_lookup_S in Hy by (by apply lookup_lt_Some in Hx).
  unfold constant_prices in Hconst. rewrite Forall_lookup in Hconst.
  destruct x as [a |]; [| discriminate Hq].
  destruct y as [b |]; [| discriminate Hq].
  pose proof (Hconst _ _ Hx a eq_refl) as Ha.
  pose proof (Hconst _ _ Hy b eq_refl) as Hb.
  simpl in Hq. destruct (Qeq_bool b 0) eqn:Hb0.
  { destruct (Qeq_bool a 0); [discriminate |].
    destruct (Qle_bool 0 a); discriminate. }
  injection Hq as ->.
  apply not_true_iff_false in Hb0. rewrite Qeq_bool_iff in Hb0.
  rewrite Ha. rewrite Hb in Hb0 |- *. field. exact Hb0.
Qed.

Lemma remove_dups_fmap_inj_on {A B} `{EqDecision A, EqDecision B}
      (f : A -> B) (l : list A) :
  (∀ a b, a ∈ l → b ∈ l → f a = f b → a = b) →
  remove_dups (f <$> l) = f <$> remove_dups l.
Proof.
  induction l as [| x l IH]; intros Hinj; [reflexivity |].
  assert (Hl : ∀ a b, a ∈ l → b ∈ l → f a = f b → a = b).
  { intros a b Ha Hb. apply Hinj; by apply list_elem_of_further. }
  cbn [fmap list_fmap remove_dups].
  change (list_fmap A B f l) with (f <$> l).
  rewrite (IH Hl).
  destruct (decide_rel elem_of x l) as [Hx | Hx];
    destruct (decide_rel elem_of (f x) (f <$> l)) as [Hfx | Hfx];
    try reflexivity.
  - exfalso. apply Hfx. by apply list_elem_of_fmap_2.
  - exfalso. apply Hx. apply list_elem_of_fmap in Hfx as (y & Hxy & Hy).
    assert (x = y) as ->; [| done].
    apply Hinj; [apply list_elem_of_here | by apply list_elem_of_further | done].
Qed.

(** As many distinct tickers as distinct catalog names. *)
Lemma distinct_symbols_count (companies : list string) :
  Forall (fun c => c ∈ available_companies) companies →
  length (remove_dups (symbols_of companies)) = length (remove_dups companies).
Proof.
  intros Hall. unfold symbols_of.
  rewrite remove_dups_fmap_inj_on, length_fmap; [reflexivity |].
  rewrite Forall_forall in Hall.
  intros a b Ha Hb. apply resolve_inj_catalog; auto.
Qed.

Lemma corr_cells_length (df : DataFrame fval) :
  length (cells (corr df)) = length df
  ∧ Forall (fun row => length row = length df) (cells (corr df))
  ∧ length (labels (corr df)) = length df.
Proof.
  unfold corr, column_labels. simpl. rewrite !length_fmap.
  split; [reflexivity |]. split; [| reflexivity].
  apply Forall_fmap, Forall_forall. intros cx _. simpl. by rewrite length_fmap.
Qed.

Lemma cell_corr_sym (df : DataFrame fval) (i j : nat) :
  cell (corr df) i j = cell (corr df) j i.
Proof.
  rewrite !cell_corr.
  destruct (df !! i) as [ci |], (df !! j) as [cj |]; simpl; try reflexivity.
  by rewrite pearson_sym.
Qed.

(** C1. For a valid selection and a price table whose columns are the
    tickers of the selected companies, each once, the correlation matrix
    is square of dimension the number of distinct selected companies, it is
    symmetric, and its diagonal is exactly 1 at every company whose returns
    have nonzero variance. *)
Theorem correlation_matrix_shape
        (companies : list string) (data : DataFrame price)
        (evs : list event) (M : Matrix) :
  2 ≤ length companies →
  Forall (fun c => c ∈ available_companies) companies →
  column_labels data ≡ₚ remove_dups (symbols_of companies) →
  create_correlation_heatmap data = (evs, inr M) →
  let n := length (remove_dups companies) in
  length (cells M) = n
  ∧ Forall (fun row => length row = n) (cells M)
  ∧ length (labels M) = n
  ∧ (∀ i j, i < n → j < n → is_Some (cell M i j))
  ∧ (∀ i j, cell M i j = cell M j i)
  ∧ (∀ i label col,
        data !! i = Some (label, col) →
        nonzero_variance (series_pct_change col) →
        cell M i i = Some (Some 1%R)).
Proof.
  intros _ Hvalid Hcols Hrun n.
  apply create_correlation_heatmap_value in Hrun. injection Hrun as ->.
  assert (Hn : length data = n).
  { unfold n. rewrite <- distinct_symbols_count by done.
    rewrite <- Hcols. unfold column_labels. by rewrite length_fmap. }
  assert (Hlen : length (pct_change data) = n).
  { unfold pct_change. by rewrite length_fmap. }
  destruct (corr_cells_length (pct_change data)) as (Hrows & Hrow & Hlab).
  rewrite Hlen in Hrows, Hrow, Hlab.
  split; [exact Hrows |]. split; [exact Hrow |]. split; [exact Hlab |].
  split; [| split].
  - intros i j Hi Hj. rewrite cell_corr_pct.
    destruct (lookup_lt_is_Some_2 data i) as [ci ->]; [lia |].
    destruct (lookup_lt_is_Some_2 data j) as [cj ->]; [lia |].
    simpl. eauto.
  - intros i j. apply cell_corr_sym.
  - intros i label col Hi Hvar. rewrite cell_corr_pct, Hi. simpl.
    by rewrite pearson_self.
Qed.

(** C3. Every correlation present in the matrix lies between -1 and 1. *)
Theorem correlation_in_unit_interval
        (data : DataFrame price) (evs : list event) (M : Matrix)
        (i j : nat) (r : R) :
  create_correlation_heatmap data = (evs, inr M) →
  cell M i j = Some (Some r) →
  (-1 <= r <= 1)%R.
Proof.
  intros Hrun Hcell.
  apply create_correlation_heatmap_value in Hrun. injection Hrun as ->.
  rewrite cell_corr_pct in Hcell.
  destruct (data !! i) as [ci |]; [| discriminate].
  destruct (data !! j) as [cj |]; [| discriminate].
  simpl in Hcell. injection Hcell as Hp.
  by apply pearson_bounds in Hp.
Qed.

(** C4. A column of zero variance, be it a constant price series or any
    column whose finite returns are all equal, makes the engine return
    normally, with every cell of the column's row and of its column
    missing: neither 0 nor 1 nor any other number. *)
Theorem constant_column_undefined
        (data : DataFrame price) (i : nat) (label : string)
        (col : list price) (c : Q) :
  data !! i = Some (label, col) →
  constant_prices c col
  ∨ Forall (fun q => (q == c)%Q) (finite_values (series_pct_change col)) →
  ∃ (evs : list event) (M : Matrix),
    create_correlation_heatmap data = (evs, inr M)
    ∧ ∀ j, j < length data →
           cell M i j = Some None ∧ cell M j i = Some None
           ∧ (∀ r : R, cell M i j ≠ Some (Some r))
           ∧ (∀ r : R, cell M j i ≠ Some (Some r)).
Proof.
  intros Hi Hconst. eexists _, _. split; [reflexivity |].
  intros j Hj.
  assert (Hflat : ∃ c', Forall (fun q => (q == c')%Q)
                               (finite_values (series_pct_change col))).
  { destruct Hconst as [Hconst | Hflat]; [| by exists c].
    exists 0%Q. by apply (constant_prices_returns c). }
  destruct Hflat as [c' Hflat].
  assert (Hij : cell (corr (pct_change data)) i j = Some None).
  { rewrite cell_corr_pct, Hi.
    destruct (lookup_lt_is_Some_2 data j Hj) as [cj ->]. simpl.
    f_equal. by apply (pearson_constant_l c'). }
  assert (Hji : cell (corr (pct_change data)) j i = Some None)
    by (by rewrite cell_corr_sym).
  split; [exact Hij |]. split; [exact Hji |].
  split; intros r; [rewrite Hij | rewrite Hji]; discriminate.
Qed.

(** A column without spread has no correlation with itself. *)
Lemma pearson_self_flat (xs : list fval) :
  ¬ nonzero_variance xs → pearson xs xs = None.
Proof.
  unfold nonzero_variance, pearson. rewrite complete_rows_self.
  generalize (finite_values xs). intros f Hflat.
  rewrite length_fmap, diag_pairs_fst, diag_pairs_snd.
  destruct (length f <? 1)%nat; [reflexivity |].
  assert (Hz : (ssqdm f == 0)%Q).
  { destruct (Qeq_dec (ssqdm f) 0) as [H | H]; [exact H | by destruct Hflat]. }
  assert (Hd : (ssqdm f * ssqdm f == 0)%Q) by (rewrite Hz; ring).
  apply Qeq_bool_iff in Hd. by rewrite Hd.
Qed.

Lemma corr_single_column (label : string) (col : list price) :
  corr (pct_change [(label, col)])
  = {| labels := [label];
       cells := [[pearson (series_pct_change col) (series_pct_change col)]] |}.
Proof. reflexivity. Qed.

(** C8, as amended.  The engine does not treat a price table with fewer
    than 2 columns as malformed: it has no check of the number of columns
    and no failure path of its own.  On every price table it draws and
    returns the square matrix of the table's columns, labelled by them; no
    column gives the empty matrix, and a single column gives the 1 x 1
    matrix whose cell is 1 when the returns of the column have nonzero
    variance and is missing otherwise. *)
Theorem engine_accepts_fewer_columns (data : DataFrame price) :
  ∃ (evs : list event) (M : Matrix) (kw : heatmap_args),
    create_correlation_heatmap data = (evs, inr M)
    ∧ SnsHeatmap M kw ∈ evs
    ∧ labels M = column_labels data
    ∧ length (cells M) = length data
    ∧ Forall (fun row => length row = length data) (cells M)
    ∧ (data = [] → cells M = [])
    ∧ (∀ label col, data = [(label, col)] →
         (nonzero_variance (series_pct_change col) → cells M = [[Some 1%R]])
         ∧ (¬ nonzero_variance (series_pct_change col) → cells M = [[None]])).
Proof.
  eexists _, _, _. split; [reflexivity |].
  split; [apply (list_elem_of_lookup_2 _ 1); reflexivity |].
  split.
  { unfold corr, column_labels, pct_change. simpl.
    rewrite <- list_fmap_compose. reflexivity. }
  destruct (corr_cells_length (pct_change data)) as (Hrows & Hrow & _).
  unfold pct_change in Hrows, Hrow. rewrite length_fmap in Hrows, Hrow.
  split; [exact Hrows |]. split; [exact Hrow |].
  split; [by intros -> |].
  intros label col ->. rewrite corr_single_column. simpl. split; intros Hvar.
  - by rewrite pearson_self.
  - by rewrite pearson_self_flat.
Qed.

(** C8 as stated fails: a table of a single column is not reported as an
    error; the engine returns a 1 x 1 matrix. *)
Lemma single_column_no_error :
  let data : DataFrame price := [("AAPL", [Some 100%Q; Some 110%Q; Some 99%Q])] in
  length data < 2
  ∧ ¬ (∃ (evs : list event) (e : exn),
          create_correlation_heatmap data = (evs, inl e))
  ∧ ∃ (evs : list event) (M : Matrix),
      create_correlation_heatmap data = (evs, inr M)
      ∧ length (cells M) = 1%nat.
Proof.
  intros data. split; [simpl; lia |]. split.
  - intros (evs & e & H). apply create_correlation_heatmap_value in H.
    discriminate.
  - eexists _, _. split; reflexivity.
Qed.

(** ** The statements at concrete tables *)

(** Apple and Microsoft over three days. *)
Lemma correlation_matrix_shape_witness :
  let data : DataFrame price :=
    [ ("AAPL", [Some 1%Q; Some 2%Q; Some 3%Q]);
      ("MSFT", [Some 1%Q; Some 3%Q; Some 4%Q]) ] in
  length (cells (corr (pct_change data))) = 2%nat
  ∧ cell (corr (pct_change data)) 0 1 = cell (corr (pct_change data)) 1 0
  ∧ cell (corr (pct_change data)) 0 0 = Some (Some 1%R).
Proof.
  intros data.
  assert (Hvalid : Forall (fun c => c ∈ available_companies) ["Apple"; "Microsoft"]).
  { repeat constructor. }
  assert (Hcols : column_labels data ≡ₚ remove_dups (symbols_of ["Apple"; "Microsoft"])).
  { vm_compute. reflexivity. }
  destruct (correlation_matrix_shape ["Apple"; "Microsoft"] data
              (create_correlation_heatmap data).1 (corr (pct_change data))
              ltac:(simpl; lia) Hvalid Hcols eq_refl)
    as (Hrows & _ & _ & _ & Hsym & Hdiag).
  split; [exact Hrows |]. split; [apply Hsym |].
  apply (Hdiag 0%nat "AAPL" [Some 1%Q; Some 2%Q; Some 3%Q] eq_refl).
  unfold nonzero_variance. vm_compute. discriminate.
Defined.

Lemma correlation_in_unit_interval_witness :
  let data : DataFrame price :=
    [ ("AAPL", [Some 1%Q; Some 2%Q; Some 3%Q]);
      ("MSFT", [Some 1%Q; Some 3%Q; Some 4%Q]) ] in
  ∃ r : R, cell (corr (pct_change data)) 0 1 = Some (Some r)
           ∧ (-1 <= r <= 1)%R.
Proof.
  intros data.
  destruct (pearson (series_pct_change [Some 1%Q; Some 2%Q; Some 3%Q])
                    (series_pct_change [Some 1%Q; Some 3%Q; Some 4%Q]))
    as [r |] eqn:Hr.
  - assert (Hcell : cell (corr (pct_change data)) 0 1 = Some (Some r)).
    { rewrite cell_corr_pct. simpl. by rewrite Hr. }
    exists r. split; [exact Hcell |].
    exact (correlation_in_unit_interval data
             (create_correlation_heatmap data).1 (corr (pct_change data))
             0 1 r eq_refl Hcell).
  - exfalso. vm_compute in Hr. discriminate.
Defined.

Lemma constant_column_undefined_witness :
  let data : DataFrame price :=
    [ ("AAPL", [Some 5%Q; Some 5%Q; Some 5%Q]);
      ("MSFT", [Some 1%Q; Some 3%Q; Some 4%Q]) ] in
  cell (corr (pct_change data)) 0 1 = Some None
  ∧ cell (corr (pct_change data)) 0 0 = Some None.
Proof.
  intros data.
  assert (Hconst : constant_prices 5 [Some 5%Q; Some 5%Q; Some 5%Q]).
  { repeat constructor; intros a [= <-]; reflexivity. }
  destruct (constant_column_undefined data 0 "AAPL"
              [Some 5%Q; Some 5%Q; Some 5%Q] 5%Q eq_refl (or_introl Hconst))
    as (evs & M & Hrun & Hcells).
  apply create_correlation_heatmap_value in Hrun. injection Hrun as ->.
  split.
  - apply (Hcells 1%nat). simpl. lia.
  - apply (Hcells 0%nat). simpl. lia.
Defined.

(** ** The charts in a run of the driver *)

Lemma getitem_None {A} (df : DataFrame A) (label : string) :
  label ∉ column_labels df → getitem df label = None.
Proof.
  induction df as [| [l col] df IH]; intros Hnot; [reflexivity |].
  simpl. destruct (decide (l = label)) as [-> | Hne].
  - exfalso. apply Hnot. apply list_elem_of_here.
  - apply IH. intros Hin. apply Hnot. by apply list_elem_of_further.
Qed.

(** No catalog name is the ticker of a catalog name. *)
Lemma catalog_name_not_ticker (a b : string) :
  a ∈ available_companies → b ∈ available_companies → resolve b ≠ a.
Proof.
  intros Ha Hb.
  repeat (apply elem_of_cons in Ha as [-> | Ha]);
    try (by apply not_elem_of_nil in Ha);
    repeat (apply elem_of_cons in Hb as [-> | Hb]);
    try (by apply not_elem_of_nil in Hb);
    vm_compute; discriminate.
Qed.

(** The driver hands the renderer the company names, while the columns of
    the downloaded table are labelled by ticker: on such a table the
    renderer stops with [KeyError] at the first company. *)
Lemma charts_key_error_on_ticker_columns
      (data : DataFrame price) (c : string) (cs : list string) :
  Forall (fun x => x ∈ available_companies) (c :: cs) →
  (∀ l, l ∈ column_labels data → l ∈ symbols_of (c :: cs)) →
  create_candlestick_charts data (c :: cs)
  = ([PltSubplots (S (length cs)) 1 12 (5 * S (length cs))], inl (KeyError c)).
Proof.
  intros Hvalid Hcols.
  assert (Hc : getitem data c = None).
  { apply getitem_None. intros Hin. apply Hcols in Hin.
    apply list_elem_of_fmap in Hin as (b & Hb & Hbin).
    rewrite Forall_forall in Hvalid.
    apply (catalog_name_not_ticker c b); [apply Hvalid, list_elem_of_here | | done].
    by apply Hvalid. }
  unfold create_candlestick_charts. cbn [length for_enumerate].
  unfold chart_panel at 1. rewrite Hc. reflexivity.
Qed.

(** * Further properties of the script *)

(** ** Splitting and trimming the input line *)

Lemma split_nonempty (sep : ascii) (s : string) : PyStr.split sep s ≠ [].
Proof.
  destruct s as [| c s]; [discriminate |]. simpl.
  destruct (Ascii.eqb c sep); [discriminate |].
  destruct (PyStr.split sep s); discriminate.
Qed.

(** A line with [n] separators splits into [n + 1] pieces. *)
Lemma length_split (sep : ascii) (s : string) :
  length (PyStr.split sep s) = S (count_char sep s).
Proof.
  induction s as [| c s IH]; [reflexivity |]. simpl.
  destruct (Ascii.eqb c sep).
  - simpl. by rewrite IH.
  - destruct (PyStr.split sep s) as [| w ws] eqn:Hs; [by apply split_nonempty in Hs |].
    simpl in *. exact IH.
Qed.

Lemma str_join_cons (sep x y : string) (l : list string) :
  str_join sep (x :: y :: l) = x +:+ sep +:+ str_join sep (y :: l).
Proof. reflexivity. Qed.

(** X1. Splitting loses nothing: joining the pieces with the separator
    gives the line back. *)
Theorem join_split (sep : ascii) (s : string) :
  str_join (String sep EmptyString) (PyStr.split sep s) = s.
Proof.
  induction s as [| c s IH]; [reflexivity |]. cbn [PyStr.split].
  destruct (PyStr.split sep s) as [| w ws] eqn:Hs; [by apply split_nonempty in Hs |].
  destruct (Ascii.eqb_spec c sep) as [-> | Hne].
  - rewrite str_join_cons, IH. reflexivity.
  - destruct ws as [| w' ws].
    + cbn [str_join] in *. by rewrite IH.
    + rewrite str_join_cons in IH |- *. rewrite <- IH. reflexivity.
Qed.

(** X2. A line without a comma, the empty line included, is always turned
    down with the request for at least 2 companies. *)
Theorem line_without_comma_rejected (line : string) :
  count_char ","%char line = 0%nat →
  loop_body line
  = ([prompt; Print (Text "Please enter at least 2 companies.")], None).
Proof.
  intros Hc. unfold loop_body.
  rewrite length_fmap, length_split, Hc. reflexivity.
Qed.

Lemma line_without_comma_rejected_witness :
  loop_body "Apple Microsoft"
  = ([prompt; Print (Text "Please enter at least 2 companies.")], None).
Proof. apply line_without_comma_rejected. reflexivity. Defined.

Lemma split_app_sep (sep : ascii) (a b : string) :
  count_char sep a = 0%nat →
  PyStr.split sep (a +:+ String sep b) = a :: PyStr.split sep b.
Proof.
  induction a as [| c a IH]; intros Hc.
  - simpl. by rewrite Ascii.eqb_refl.
  - simpl in Hc. destruct (Ascii.eqb c sep) eqn:Hcs; [discriminate |].
    simpl. rewrite Hcs, IH by exact Hc. reflexivity.
Qed.

Lemma split_no_sep (sep : ascii) (a : string) :
  count_char sep a = 0%nat → PyStr.split sep a = [a].
Proof.
  induction a as [| c a IH]; intros Hc; [reflexivity |].
  simpl in Hc. destruct (Ascii.eqb c sep) eqn:Hcs; [discriminate |].
  simpl. rewrite Hcs, IH by exact Hc. reflexivity.
Qed.

(** The pieces of names typed with a comma and a blank between them. *)
Lemma split_typed_names (x : string) (l : list string) :
  Forall (fun c => count_char ","%char c = 0%nat) (x :: l) →
  PyStr.split ","%char (str_join ", " (x :: l))
  = x :: ((fun c => String " "%char c) <$> l).
Proof.
  revert x. induction l as [| y l IH]; intros x Hall.
  - apply split_no_sep. by apply Forall_cons in Hall as [? _].
  - apply Forall_cons in Hall as [Hx Hall].
    rewrite str_join_cons. change (", " +:+ str_join ", " (y :: l))
      with (String ","%char (String " "%char (str_join ", " (y :: l)))).
    rewrite split_app_sep by exact Hx. f_equal.
    cbn [PyStr.split]. change (Ascii.eqb " " ",") with false. cbv iota.
    rewrite (IH y Hall). reflexivity.
Qed.

Lemma catalog_name_typed (c : string) :
  c ∈ available_companies →
  count_char ","%char c = 0%nat
  ∧ PyStr.strip c = c
  ∧ PyStr.strip (String " "%char c) = c.
Proof.
  intros Hc.
  repeat (apply elem_of_cons in Hc as [-> | Hc]);
    try (by apply not_elem_of_nil in Hc);
    vm_compute; done.
Qed.

Lemma filter_unavailable_nil (companies : list string) :
  Forall (fun c => c ∈ available_companies) companies →
  filter (fun c => c ∉ available_companies) companies = [].
Proof.
  induction 1 as [| c cs Hc _ IH]; [reflexivity |].
  rewrite filter_cons. destruct (decide (c ∉ available_companies)); [done |].
  exact IH.
Qed.

(** X3. Every selection of at least two catalog names, repeats allowed,
    typed with a comma and a blank between the names, passes the
    validation, and the loop breaks with exactly that list. *)
Theorem typed_selection_accepted (companies : list string) :
  2 ≤ length companies →
  Forall (fun c => c ∈ available_companies) companies →
  loop_body (str_join ", " companies) = ([prompt], Some companies).
Proof.
  intros Hlen Hall.
  assert (Hparse : PyStr.strip <$> PyStr.split ","%char (str_join ", " companies)
                   = companies).
  { destruct companies as [| x l]; [simpl in Hlen; lia |].
    rewrite split_typed_names.
    - apply Forall_cons in Hall as [Hx Hl].
      rewrite fmap_cons. f_equal; [by apply catalog_name_typed |].
      rewrite <- list_fmap_compose. clear Hlen.
      induction Hl as [| y l Hy _ IH]; [reflexivity |].
      rewrite fmap_cons. f_equal; [by apply catalog_name_typed | exact IH].
    - eapply Forall_impl; [exact Hall |]. intros c Hc.
      by apply catalog_name_typed. }
  unfold loop_body. rewrite Hparse.
  replace (length companies <? 2)%nat with false
    by (symmetry; apply Nat.ltb_ge; lia).
  by rewrite filter_unavailable_nil.
Qed.

Lemma typed_selection_accepted_witness :
  loop_body "Visa, Intel, Visa" = ([prompt], Some ["Visa"; "Intel"; "Visa"]).
Proof.
  apply (typed_selection_accepted ["Visa"; "Intel"; "Visa"]).
  - simpl. lia.
  - repeat constructor.
Defined.

(** ** The resolver on tickers *)

Lemma resolve_resolve (s : string) : resolve (resolve s) = resolve s.
Proof.
  destruct (decide (s ∈ company_symbols_items.*1)) as [Hin | Hout].
  - change (company_symbols_items.*1) with available_companies in Hin.
    repeat (apply elem_of_cons in Hin as [-> | Hin]);
      try (by apply not_elem_of_nil in Hin);
      vm_compute; reflexivity.
  - unfold resolve at 2 3.
    rewrite (company_symbols_lookup_None s Hout). simpl.
    unfold resolve. by rewrite (company_symbols_lookup_None s Hout).
Qed.

(** X4. Resolving twice is resolving once: no ticker is a key of the
    table, so the list handed to [fetch_stock_data] may mix tickers and
    names, and a list that is already resolved goes to the provider
    unchanged. *)
Theorem symbols_of_idempotent (companies : list string) :
  symbols_of (symbols_of companies) = symbols_of companies.
Proof.
  unfold symbols_of. rewrite <- list_fmap_compose.
  apply list_fmap_ext. intros _ s _. apply resolve_resolve.
Qed.

(** X5. On a valid selection the tickers sent to the provider repeat
    exactly where the selection repeats a company. *)
Theorem symbols_distinct_iff (companies : list string) :
  Forall (fun c => c ∈ available_companies) companies →
  NoDup (symbols_of companies) ↔ NoDup companies.
Proof.
  intros Hall. unfold symbols_of. split.
  - apply NoDup_fmap_1.
  - apply NoDup_fmap_2_strong. rewrite Forall_forall in Hall.
    intros a b Ha Hb. apply resolve_inj_catalog; auto.
Qed.

Lemma symbols_distinct_iff_witness :
  NoDup (symbols_of ["Visa"; "Mastercard"]) ↔ NoDup ["Visa"; "Mastercard"].
Proof. apply symbols_distinct_iff. repeat constructor. Defined.

(** ** A company that is no column of the table *)

Lemma chart_panel_Some (data : DataFrame price) (k : nat) (c : string)
      (col : list price) :
  getitem data c = Some col →
  chart_panel data k c = (panel_events k c col, inr tt).
Proof. intros H. unfold chart_panel. rewrite H. reflexivity. Qed.

Lemma for_enumerate_missing_column (data : DataFrame price)
      (pre : list string) (c : string) (post : list string) (k : nat) :
  Forall (fun x => is_Some (getitem data x)) pre →
  getitem data c = None →
  for_enumerate k (pre ++ c :: post) (chart_panel data)
  = (panels_from data k pre, inl (KeyError c)).
Proof.
  intros Hpre Hc. revert k. induction Hpre as [| x pre [col Hx] _ IH]; intros k.
  - cbn [app for_enumerate panels_from]. unfold chart_panel at 1.
    rewrite Hc. reflexivity.
  - cbn [app for_enumerate panels_from].
    rewrite (chart_panel_Some data k x col Hx), Hx, IH. reflexivity.
Qed.

(** X6. The renderer draws the panels of the companies in order and stops
    at the first one that is no column of the table: it raises [KeyError]
    with that name, the later companies get no panel, and the layout is not
    tightened. *)
Theorem charts_stop_at_missing_column
        (data : DataFrame price) (pre : list string) (c : string)
        (post : list string) :
  Forall (fun x => is_Some (getitem data x)) pre →
  getitem data c = None →
  let n := length (pre ++ c :: post) in
  create_candlestick_charts data (pre ++ c :: post)
  = (PltSubplots n 1 12 (5 * n) :: panels_from data 0 pre, inl (KeyError c)).
Proof.
  intros Hpre Hc n. unfold create_candlestick_charts. fold n.
  rewrite (for_enumerate_missing_column data pre c post 0 Hpre Hc).
  assert (Hn : ∃ m, n = S m).
  { unfold n. rewrite length_app. simpl. exists (length pre + length post). lia. }
  destruct Hn as [m ->]. reflexivity.
Qed.

Lemma charts_stop_at_missing_column_witness :
  let data : DataFrame price := [("Visa", [Some 1%Q; Some 2%Q])] in
  create_candlestick_charts data ["Visa"; "Intel"; "Visa"]
  = (PltSubplots 3 1 12 15 :: panels_from data 0 ["Visa"],
     inl (KeyError "Intel")).
Proof.
  intros data.
  apply (charts_stop_at_missing_column data ["Visa"] "Intel" ["Visa"]).
  - repeat constructor. by eexists.
  - reflexivity.
Defined.

(** ** A whole run on a valid selection *)

Lemma filter_unavailable_nil_inv (companies : list string) :
  filter (fun c => c ∉ available_companies) companies = [] →
  Forall (fun c => c ∈ available_companies) companies.
Proof.
  induction companies as [| c cs IH]; [constructor |].
  rewrite filter_cons.
  destruct (decide (c ∉ available_companies)) as [Hc | Hc]; [discriminate |].
  intros Hf. constructor; [by apply dec_stable | by apply IH].
Qed.

Lemma loop_body_break_inv (line : string) (evs : list event)
      (companies : list string) :
  loop_body line = (evs, Some companies) →
  evs = [prompt]
  ∧ companies = PyStr.strip <$> PyStr.split ","%char line
  ∧ 2 ≤ length companies
  ∧ Forall (fun c => c ∈ available_companies) companies.
Proof.
  unfold loop_body.
  set (cs := PyStr.strip <$> PyStr.split ","%char line).
  destruct (Nat.ltb_spec (length cs) 2) as [Hlt | Hge]; [discriminate |].
  destruct (filter _ cs) as [| o os] eqn:Hf; [| discriminate].
  intros [= <- <-].
  split; [reflexivity |]. split; [reflexivity |]. split; [exact Hge |].
  by apply filter_unavailable_nil_inv.
Qed.

(** X7. When a valid selection was typed and the provider returns a table
    whose columns are labelled by the requested tickers, the run shows the
    heatmap and prints the matrix, and then ends with the report of a
    [KeyError] for the first company: the renderer looks the columns up by
    company name, so no price panel is drawn and the second [plt.show()]
    is not reached. *)
Theorem valid_run_ends_in_key_error
        (yf_download : list string -> string -> string -> exn + DataFrame price)
        (line : string) (rest : list string)
        (companies : list string) (data : DataFrame price) :
  loop_body line = ([prompt], Some companies) →
  yf_download (symbols_of companies) "2023-01-01" "2024-01-01" = inr data →
  (∀ l, l ∈ column_labels data → l ∈ symbols_of companies) →
  ∃ c : string,
    companies !! 0%nat = Some c
    ∧ main yf_download (line :: rest)
      = (banner
           ++ [ prompt;
                YfDownload (symbols_of companies) "2023-01-01" "2024-01-01";
                PltFigure 12 10;
                SnsHeatmap (corr (pct_change data))
                  {| annot := true; cmap := "Blues"; center := 0;
                     vmin := -1; vmax := 1; square := true;
                     linewidths := 1 # 2 |};
                PltTitle "Stock Price Correlation Heatmap" 16;
                PltTightLayout;
                PltShow;
                Print (Text (newline +:+ "Correlation Matrix:"));
                Print (MatrixText (corr (pct_change data)));
                PltSubplots (length companies) 1 12 (5 * length companies);
                Print (ErrorProcessing (KeyError c)) ],
         Done).
Proof.
  intros Hbody Hyf Hcols.
  destruct (loop_body_break_inv _ _ _ Hbody) as (_ & _ & Hlen & Hvalid).
  destruct companies as [| c cs]; [simpl in Hlen; lia |].
  exists c. split; [reflexivity |].
  pose proof (charts_key_error_on_ticker_columns data c cs Hvalid Hcols) as Hcharts.
  unfold main. rewrite (input_loop_break line rest _ _ Hbody).
  cbv beta iota. f_equal. f_equal. unfold process, fetch_stock_data.
  rewrite Hyf.
  unfold try_except, bind, emit, ret, create_correlation_heatmap.
  cbv beta iota. rewrite Hcharts. reflexivity.
Qed.

Lemma valid_run_ends_in_key_error_witness :
  let provider := fun (symbols : list string) (_ _ : string) =>
    inr ((fun s => (s, [Some 1%Q; Some 2%Q; Some 3%Q])) <$> symbols)
    : exn + DataFrame price in
  ∃ c : string, ["Apple"; "Tesla"] !! 0%nat = Some c
    ∧ last (main provider ["Apple, Tesla"]).1
      = Some (Print (ErrorProcessing (KeyError c))).
Proof.
  intros provider.
  destruct (valid_run_ends_in_key_error provider "Apple, Tesla" []
              ["Apple"; "Tesla"]
              ((fun s => (s, [Some 1%Q; Some 2%Q; Some 3%Q]))
                 <$> symbols_of ["Apple"; "Tesla"]))
    as (c & Hc & Hmain).
  - vm_compute. reflexivity.
  - reflexivity.
  - intros l Hl. vm_compute in Hl |- *. exact Hl.
  - exists c. split; [exact Hc |]. rewrite Hmain. reflexivity.
Defined.

(** ** A table of at most two days *)

Lemma series_pct_change_cons (p : price) (col : list price) :
  ∃ tl, series_pct_change (p :: col) = NaN :: tl ∧ length tl = length col.
Proof.
  pose proof (length_series_pct_change (p :: col)) as Hlen.
  pose proof (series_pct_change_row0 (p :: col) ltac:(done)) as H0.
  destruct (series_pct_change (p :: col)) as [| v tl]; [discriminate |].
  injection H0 as ->. exists tl. split; [reflexivity |].
  simpl in Hlen. lia.
Qed.

Lemma length_finite_values (xs : list fval) :
  length (finite_values xs) ≤ length xs.
Proof.
  induction xs as [| [q | | |] xs IH]; simpl in *; lia.
Qed.

Lemma short_column_flat (col : list price) :
  length col ≤ 2 →
  ∃ c, Forall (fun q => (q == c)%Q) (finite_values (series_pct_change col)).
Proof.
  intros Hlen. destruct col as [| p col]; [exists 0%Q; constructor |].
  destruct (series_pct_change_cons p col) as (tl & -> & Htl).
  change (finite_values (NaN :: tl)) with (finite_values tl).
  pose proof (length_finite_values tl) as Hf. simpl in Hlen.
  destruct (finite_values tl) as [| q [| q' l]].
  - exists 0%Q. constructor.
  - exists q. by repeat constructor.
  - simpl in Hf. lia.
Qed.

(** X8. A column of at most two days has at most one return, which is not
    enough for a correlation: every cell of its row and of its column is
    missing, the diagonal cell included. *)
Theorem short_column_undefined
        (data : DataFrame price) (i : nat) (label : string) (col : list price)
        (evs : list event) (M : Matrix) :
  data !! i = Some (label, col) →
  length col ≤ 2 →
  create_correlation_heatmap data = (evs, inr M) →
  ∀ j, j < length data →
       cell M i j = Some None ∧ cell M j i = Some None.
Proof.
  intros Hi Hlen Hrun j Hj.
  apply create_correlation_heatmap_value in Hrun. injection Hrun as ->.
  destruct (short_column_flat col Hlen) as [c Hflat].
  assert (Hij : cell (corr (pct_change data)) i j = Some None).
  { rewrite cell_corr_pct, Hi.
    destruct (lookup_lt_is_Some_2 data j Hj) as [cj ->]. simpl.
    f_equal. by apply (pearson_constant_l c). }
  split; [exact Hij |]. by rewrite cell_corr_sym.
Qed.

Lemma short_column_undefined_witness :
  let data : DataFrame price :=
    [ ("AAPL", [Some 100%Q; Some 110%Q]); ("MSFT", [Some 50%Q; Some 40%Q]) ] in
  cell (corr (pct_change data)) 0 0 = Some None
  ∧ cell (corr (pct_change data)) 0 1 = Some None.
Proof.
  intros data.
  pose proof (short_column_undefined data 0 "AAPL" [Some 100%Q; Some 110%Q]
                (create_correlation_heatmap data).1 (corr (pct_change data))
                eq_refl ltac:(simpl; lia) eq_refl) as H.
  split; [apply (H 0%nat) | apply (H 1%nat)]; simpl; lia.
Defined.

(** ** Where the markers sit *)

Lemma bool_index_lookup {A} (col : list A) (mask : list bool) (k idx t : nat) :
  bool_index (seq k (length col)) mask !! idx = Some t →
  k ≤ t ∧ bool_index col mask !! idx = col !! (t - k).
Proof.
  revert mask k idx. induction col as [| x col IH]; intros mask k idx Ht.
  - simpl in Ht. discriminate.
  - destruct mask as [| b mask]; [discriminate |].
    cbn [length seq bool_index] in *.
    assert (Hrec : ∀ idx', bool_index (seq (S k) (length col)) mask !! idx' = Some t →
                           k ≤ t ∧ bool_index col mask !! idx' = (x :: col) !! (t - k)).
    { intros idx' H. destruct (IH _ _ _ H) as [Hle Hy]. split; [lia |].
      rewrite Hy. by replace (t - k) with (S (t - S k)) by lia. }
    destruct b; [| by apply Hrec].
    destruct idx as [| idx]; [| by apply Hrec].
    injection Ht as <-. split; [lia |]. by rewrite Nat.sub_diag.
Qed.

Lemma length_bool_index {A B} (xs : list A) (ys : list B) (mask : list bool) :
  length xs = length ys →
  length (bool_index xs mask) = length (bool_index ys mask).
Proof.
  revert ys mask. induction xs as [| x xs IH]; intros [| y ys] mask Hlen;
    try discriminate; [reflexivity |].
  destruct mask as [| [] mask]; simpl; [reflexivity | f_equal |];
    apply IH; by injection Hlen.
Qed.

(** A return of definite sign needs the day's price. *)
Lemma sign_test_price_present (col : list price) (t : nat) (v : fval) :
  series_pct_change col !! t = Some v →
  fgt0 v = true ∨ flt0 v = true →
  ∃ q, col !! t = Some (Some q).
Proof.
  unfold series_pct_change. intros Hv Hsign.
  apply lookup_zip_with_Some in Hv as (x & y & -> & Hx & _).
  destruct x as [q |]; [by exists q |].
  simpl in Hsign. destruct Hsign; discriminate.
Qed.

Lemma bind_event_in {A B} (c : Eff A) (k : A -> Eff B) (ev : event) :
  ev ∈ (bind c k).1 → ev ∈ c.1 ∨ ∃ a, c.2 = inr a ∧ ev ∈ (k a).1.
Proof.
  destruct c as [evs [e | a]]; simpl; [by left |].
  destruct (k a) as [evs' r] eqn:Hk. simpl.
  intros [H | H]%elem_of_app; [by left |].
  right. exists a. by rewrite Hk.
Qed.

(** Whatever a loop emitted was emitted by its body on one of the
    elements, also when the loop ended in an exception. *)
Lemma for_enumerate_event_origin {A} (body : nat -> A -> Eff unit)
      (l : list A) (k : nat) (ev : event) :
  ev ∈ (for_enumerate k l body).1 →
  ∃ i x, l !! i = Some x ∧ ev ∈ (body (k + i) x).1.
Proof.
  revert k. induction l as [| y l IH]; intros k Hev.
  - simpl in Hev. by apply not_elem_of_nil in Hev.
  - cbn [for_enumerate] in Hev.
    apply bind_event_in in Hev as [Hev | (_ & _ & Hev)].
    + exists 0, y. by rewrite Nat.add_0_r.
    + destruct (IH _ Hev) as (i & x & Hi & Hin).
      exists (S i), x. by replace (k + S i) with (S k + i) by lia.
Qed.

Lemma chart_panel_events (data : DataFrame price) (i : nat) (company : string)
      (ev : event) :
  ev ∈ (chart_panel data i company).1 →
  ∃ col, getitem data company = Some col ∧ ev ∈ panel_events i company col.
Proof.
  unfold chart_panel. destruct (getitem data company) as [col |].
  - intros H. by exists col.
  - simpl. by intros ?%not_elem_of_nil.
Qed.

(** Every event of the renderer other than the grid and the final layout
    belongs to the panel of one of the companies. *)
Lemma create_candlestick_charts_event_origin
      (data : DataFrame price) (companies : list string) (ev : event) :
  ev ∈ (create_candlestick_charts data companies).1 →
  ev = PltSubplots (length companies) 1 12 (5 * length companies)
  ∨ ev = PltTightLayout
  ∨ ∃ i company col,
      companies !! i = Some company ∧ getitem data company = Some col
      ∧ ev ∈ panel_events i company col.
Proof.
  unfold create_candlestick_charts. intros Hev.
  apply bind_event_in in Hev as [Hev | (_ & _ & Hev)].
  { left. destruct (length companies); simpl in Hev.
    - by apply not_elem_of_nil in Hev.
    - by apply list_elem_of_singleton in Hev. }
  apply bind_event_in in Hev as [Hev | (_ & _ & Hev)].
  - right. right.
    apply for_enumerate_event_origin in Hev as (i & company & Hi & Hev).
    apply chart_panel_events in Hev as (col & Hcol & Hev).
    by exists i, company, col.
  - right. left. simpl in Hev. by apply list_elem_of_singleton in Hev.
Qed.

(** X9. Every marker the renderer draws, in a run that ends normally or in
    an exception, sits on the price line: a marker on axis [i] at day [t]
    belongs to the [i]-th company, whose price on day [t] is present and is
    the height of the marker. *)
Theorem markers_on_price_line
        (data : DataFrame price) (companies : list string)
        (i : nat) (xs : list nat) (ys : list price)
        (color marker : string) (alpha : Q) (label : string) :
  AxScatter i xs ys color marker alpha label
    ∈ (create_candlestick_charts data companies).1 →
  ∃ company col,
    companies !! i = Some company
    ∧ getitem data company = Some col
    ∧ length ys = length xs
    ∧ ∀ k t, xs !! k = Some t →
             ∃ q, col !! t = Some (Some q) ∧ ys !! k = Some (Some q).
Proof.
  intros Hev.
  apply create_candlestick_charts_event_origin in Hev
    as [Hev | [Hev | (j & company & col & Hj & Hcol & Hev)]];
    [discriminate | discriminate |].
  assert (Hshape : i = j ∧ ∃ test : fval -> bool,
             (∀ v, test v = true → fgt0 v = true ∨ flt0 v = true)
             ∧ xs = bool_index (index_of col) (test <$> series_pct_change col)
             ∧ ys = bool_index col (test <$> series_pct_change col)).
  { unfold panel_events in Hev. rewrite !elem_of_cons in Hev.
    destruct Hev as [H | [H | [H | [H | [H | [H | [H | H]]]]]]];
      try discriminate; try (by apply not_elem_of_nil in H).
    - injection H as -> -> -> _ _ _ _. split; [reflexivity |].
      exists fgt0. split; [by left | done].
    - injection H as -> -> -> _ _ _ _. split; [reflexivity |].
      exists flt0. split; [by right | done]. }
  destruct Hshape as (-> & test & Htest & -> & ->).
  exists company, col. split; [exact Hj |]. split; [exact Hcol |].
  split.
  { symmetry. apply length_bool_index. unfold index_of. by rewrite length_seq. }
  intros k t Hk.
  assert (Hin : t ∈ bool_index (index_of col) (test <$> series_pct_change col)).
  { apply list_elem_of_lookup. by exists k. }
  apply elem_of_marked_days in Hin as (v & Hv & Htv).
  destruct (sign_test_price_present col t v Hv (Htest v Htv)) as [q Hq].
  exists q. split; [exact Hq |].
  unfold index_of in Hk. apply bool_index_lookup in Hk as [_ Hy].
  rewrite Nat.sub_0_r in Hy. exact (eq_trans Hy Hq).
Qed.

Lemma markers_on_price_line_witness :
  let data : DataFrame price :=
    [("Apple", [Some 100%Q; Some 110%Q; Some 99%Q; Some 99%Q])] in
  ∃ company col,
    ["Apple"] !! 0%nat = Some company
    ∧ getitem data company = Some col
    ∧ length [Some 110%Q] = length [1%nat]
    ∧ ∀ k t, [1%nat] !! k = Some t →
             ∃ q, col !! t = Some (Some q) ∧ [Some 110%Q] !! k = Some (Some q).
Proof.
  intros data.
  apply (markers_on_price_line data ["Apple"] 0 [1%nat] [Some 110%Q]
           "green" "^" (7 # 10) "Positive Change").
  apply (list_elem_of_lookup_2 _ 5). vm_compute. reflexivity.
Defined.

(** ** The input loop and the download *)

Lemma input_loop_app_rejected (pre rest : list string) :
  Forall (fun l => (loop_body l).2 = None) pre →
  input_loop (pre ++ rest)
  = (concat ((fun l => (loop_body l).1) <$> pre) ++ (input_loop rest).1,
     (input_loop rest).2).
Proof.
  induction 1 as [| l pre Hl _ IH].
  - simpl. by destruct (input_loop rest).
  - cbn [app input_loop fmap list_fmap concat].
    destruct (loop_body l) as [evs r] eqn:Hb. simpl in Hl. subst r.
    rewrite IH. simpl. by rewrite app_assoc.
Qed.

(** X11. The loop turns down every line until the first one that passes
    the validation; that line decides the selection, and what is typed
    after it is never read. *)
Theorem first_valid_line_decides
        (yf_download : list string -> string -> string -> exn + DataFrame price)
        (pre : list string) (line : string) (rest : list string)
        (evs : list event) (companies : list string) :
  Forall (fun l => (loop_body l).2 = None) pre →
  loop_body line = (evs, Some companies) →
  input_loop (pre ++ line :: rest)
  = (concat ((fun l => (loop_body l).1) <$> pre) ++ evs, Some companies)
  ∧ main yf_download (pre ++ line :: rest) = main yf_download (pre ++ [line]).
Proof.
  intros Hpre Hline.
  assert (Hloop : ∀ tl, input_loop (pre ++ line :: tl)
    = (concat ((fun l => (loop_body l).1) <$> pre) ++ evs, Some companies)).
  { intros tl. rewrite (input_loop_app_rejected pre (line :: tl) Hpre).
    by rewrite (input_loop_break line tl evs companies Hline). }
  split; [apply Hloop |].
  unfold main. by rewrite (Hloop rest), (Hloop []).
Qed.

Lemma first_valid_line_decides_witness :
  let offline := fun (_ : list string) (_ _ : string) =>
                   inl (DownloadError "no network") : exn + DataFrame price in
  main offline ["Apple"; "Apple, Zzzz"; "Apple, Tesla"; "Visa, Intel"]
  = main offline ["Apple"; "Apple, Zzzz"; "Apple, Tesla"].
Proof.
  intros offline.
  apply (first_valid_line_decides offline ["Apple"; "Apple, Zzzz"]
           "Apple, Tesla" ["Visa, Intel"] [prompt] ["Apple"; "Tesla"]).
  - repeat constructor.
  - vm_compute. reflexivity.
Defined.

Lemma filter_download_nil (evs : list event) :
  Forall (fun ev => is_download ev = false) evs →
  filter (fun ev => is_download ev = true) evs = [].
Proof.
  induction 1 as [| ev evs Hev _ IH]; [reflexivity |].
  rewrite filter_cons. destruct (decide (is_download ev = true)); [congruence |].
  exact IH.
Qed.

Lemma loop_body_no_download (line : string) :
  Forall (fun ev => is_download ev = false) (loop_body line).1.
Proof.
  unfold loop_body.
  destruct (length _ <? 2)%nat; [by repeat constructor |].
  destruct (filter _ _); by repeat constructor.
Qed.

Lemma input_loop_no_download (lines : list string) :
  Forall (fun ev => is_download ev = false) (input_loop lines).1.
Proof.
  induction lines as [| line rest IH]; [by repeat constructor |].
  simpl. pose proof (loop_body_no_download line) as Hb.
  destruct (loop_body line) as [evs [cs |]]; [exact Hb |].
  destruct (input_loop rest) as [evs' r]. simpl in *.
  by apply Forall_app.
Qed.

Lemma charts_no_download (data : DataFrame price) (companies : list string) :
  Forall (fun ev => is_download ev = false)
         (create_candlestick_charts data companies).1.
Proof.
  apply Forall_forall. intros ev Hev.
  apply create_candlestick_charts_event_origin in Hev
    as [-> | [-> | (i & c & col & _ & _ & Hev)]]; try reflexivity.
  unfold panel_events in Hev. rewrite !elem_of_cons in Hev.
  destruct Hev as [-> | [-> | [-> | [-> | [-> | [-> | [-> | H]]]]]]];
    try reflexivity.
  by apply not_elem_of_nil in H.
Qed.

(** What the second [try] block emits after the download request holds no
    further request. *)
Lemma process_one_download
      (yf_download : list string -> string -> string -> exn + DataFrame price)
      (companies : list string) :
  ∃ evs, (process yf_download companies).1
         = YfDownload (symbols_of companies) "2023-01-01" "2024-01-01" :: evs
         ∧ Forall (fun ev => is_download ev = false) evs.
Proof.
  unfold process, fetch_stock_data.
  destruct (yf_download _ _ _) as [e | data].
  - eexists. split; [reflexivity |]. by repeat constructor.
  - pose proof (charts_no_download data companies) as Hcharts.
    unfold try_except, bind, emit, ret, create_correlation_heatmap.
    cbv beta iota.
    destruct (create_candlestick_charts data companies) as [evs [e | []]];
      simpl in Hcharts; (eexists; split; [reflexivity |]);
      repeat (constructor; [reflexivity |]);
      (apply Forall_app; split; [exact Hcharts | by repeat constructor]).
Qed.

(** X10. A run asks the provider at most once: exactly once when a valid
    line was typed, with the tickers of that line, and not at all while the
    driver still waits for input. *)
Theorem one_download_per_run
        (yf_download : list string -> string -> string -> exn + DataFrame price)
        (lines : list string) :
  filter (fun ev => is_download ev = true) (main yf_download lines).1
  = match (input_loop lines).2 with
    | Some companies =>
        [YfDownload (symbols_of companies) "2023-01-01" "2024-01-01"]
    | None => []
    end
  ∧ ((main yf_download lines).2 = Done ↔ is_Some (input_loop lines).2).
Proof.
  unfold main. pose proof (input_loop_no_download lines) as Hloop.
  destruct (input_loop lines) as [evs [companies |]]; cbn [fst snd] in *.
  - split; [| split; eauto].
    destruct (process_one_download yf_download companies) as (tl & -> & Htl).
    rewrite !filter_app, (filter_download_nil banner),
      (filter_download_nil evs) by (done || by repeat constructor).
    rewrite filter_cons. simpl.
    destruct (decide (true = true)); [| done].
    by rewrite (filter_download_nil tl).
  - split.
    + rewrite filter_app, (filter_download_nil banner),
        (filter_download_nil evs) by (done || by repeat constructor).
      reflexivity.
    + split; [discriminate | by intros [? ?]].
Qed.

(** ** Prices in another unit *)

Lemma feq_refl (v : fval) : feq v v.
Proof. destruct v; simpl; try exact I. reflexivity. Qed.

Lemma Forall2_feq_refl (xs : list fval) : Forall2 feq xs xs.
Proof. induction xs; constructor; [apply feq_refl | done]. Qed.

Lemma Qle_bool_proper (x y : Q) :
  (x == y)%Q → Qle_bool 0 x = Qle_bool 0 y.
Proof.
  intros Hxy. destruct (Qle_bool 0 y) eqn:Hy.
  - apply Qle_bool_iff. apply Qle_bool_iff in Hy. by rewrite Hxy.
  - apply not_true_iff_false. rewrite Qle_bool_iff.
    apply not_true_iff_false in Hy. rewrite Qle_bool_iff in Hy. by rewrite Hxy.
Qed.

(** The change of a price does not depend on the unit. *)
Lemma pct_scale (k : Q) (x y : price) :
  (0 < k)%Q →
  feq (fsub (fdiv (of_price ((fun q => (k * q)%Q) <$> x))
                  (of_price ((fun q => (k * q)%Q) <$> y))) (Fin 1))
      (fsub (fdiv (of_price x) (of_price y)) (Fin 1)).
Proof.
  intros Hk. destruct x as [a |], y as [b |]; simpl; try exact I.
  assert (Hb : Qeq_bool (k * b) 0 = Qeq_bool b 0).
  { destruct (Qeq_bool b 0) eqn:Hb.
    - apply Qeq_bool_iff. apply Qeq_bool_iff in Hb. rewrite Hb. ring.
    - apply not_true_iff_false. rewrite Qeq_bool_iff.
      apply not_true_iff_false in Hb. rewrite Qeq_bool_iff in Hb. nra. }
  assert (Ha : Qeq_bool (k * a) 0 = Qeq_bool a 0).
  { destruct (Qeq_bool a 0) eqn:Ha.
    - apply Qeq_bool_iff. apply Qeq_bool_iff in Ha. rewrite Ha. ring.
    - apply not_true_iff_false. rewrite Qeq_bool_iff.
      apply not_true_iff_false in Ha. rewrite Qeq_bool_iff in Ha. nra. }
  assert (Hs : Qle_bool 0 (k * a) = Qle_bool 0 a).
  { destruct (Qle_bool 0 a) eqn:Hs.
    - apply Qle_bool_iff. apply Qle_bool_iff in Hs. nra.
    - apply not_true_iff_false. rewrite Qle_bool_iff.
      apply not_true_iff_false in Hs. rewrite Qle_bool_iff in Hs. nra. }
  rewrite Hb, Ha, Hs.
  destruct (Qeq_bool b 0) eqn:Hb0.
  - destruct (Qeq_bool a 0); [exact I |]. destruct (Qle_bool 0 a); exact I.
  - simpl. apply not_true_iff_false in Hb0. rewrite Qeq_bool_iff in Hb0.
    field. split; [exact Hb0 | lra].
Qed.

Lemma removelast_fmap {A B} (f : A -> B) (l : list A) :
  removelast (f <$> l) = f <$> removelast l.
Proof.
  induction l as [| x l IH]; [reflexivity |].
  destruct l as [| y l]; [reflexivity |].
  change (removelast (f <$> x :: y :: l))
    with (f x :: removelast (f <$> y :: l)).
  rewrite IH. reflexivity.
Qed.

Lemma shift_scale_prices (k : Q) (col : list price) :
  shift (scale_prices k col) = scale_prices k (shift col).
Proof.
  destruct col as [| p col]; [reflexivity |].
  exact (f_equal (cons None)
           (removelast_fmap (fun p0 : price => (fun q => (k * q)%Q) <$> p0)
                            (p :: col))).
Qed.

Lemma series_pct_change_scale (k : Q) (col : list price) :
  (0 < k)%Q →
  Forall2 feq (series_pct_change (scale_prices k col)) (series_pct_change col).
Proof.
  intros Hk. unfold series_pct_change. rewrite shift_scale_prices.
  generalize (shift col) as prev. unfold scale_prices.
  induction col as [| x col IH]; intros [| y prev]; simpl; try constructor.
  - by apply pct_scale.
  - apply IH.
Qed.

Lemma Qsum_proper (a b : list Q) :
  Forall2 Qeq a b → (Qsum a == Qsum b)%Q.
Proof.
  induction 1 as [| x y a b Hxy _ IH]; [reflexivity |].
  change (Qsum (x :: a)) with (x + Qsum a)%Q.
  change (Qsum (y :: b)) with (y + Qsum b)%Q. by rewrite Hxy, IH.
Qed.

Lemma dev_proper (a b : list Q) :
  Forall2 Qeq a b → Forall2 Qeq (dev a) (dev b).
Proof.
  intros Hab. unfold dev.
  assert (Hm : (mean a == mean b)%Q).
  { unfold mean. by rewrite (Qsum_proper a b Hab), (Forall2_length _ _ _ Hab). }
  apply Forall2_fmap. eapply Forall2_impl; [exact Hab |].
  intros x y Hxy. simpl. by rewrite Hxy, Hm.
Qed.

Lemma dot_proper (a a' b b' : list Q) :
  Forall2 Qeq a a' → Forall2 Qeq b b' → (dot a b == dot a' b')%Q.
Proof.
  intros Ha. revert b b'. induction Ha as [| x x' a a' Hx _ IH];
    intros b b' Hb; destruct Hb as [| y y' b b' Hy Hb];
    rewrite ?dot_nil_l, ?dot_nil_r, ?dot_cons; try reflexivity.
  by rewrite Hx, Hy, (IH b b' Hb).
Qed.

Lemma complete_rows_proper (xs xs' ys ys' : list fval) :
  Forall2 feq xs xs' → Forall2 feq ys ys' →
  Forall2 Qeq (complete_rows xs ys).*1 (complete_rows xs' ys').*1
  ∧ Forall2 Qeq (complete_rows xs ys).*2 (complete_rows xs' ys').*2.
Proof.
  intros Hx. revert ys ys'. induction Hx as [| x x' xs xs' Hxx _ IH];
    intros ys ys' Hy; destruct Hy as [| y y' ys ys' Hyy Hy];
    try (split; constructor).
  destruct (IH ys ys' Hy) as [H1 H2].
  destruct x, x'; simpl in Hxx; try done;
    destruct y, y'; simpl in Hyy; try done; simpl;
    split; try done; by constructor.
Qed.

(** The correlation sees the values of the returns, not the fractions
    that stand for them. *)
Lemma pearson_proper (xs xs' ys ys' : list fval) :
  Forall2 feq xs xs' → Forall2 feq ys ys' →
  pearson xs ys = pearson xs' ys'.
Proof.
  intros Hx Hy. unfold pearson.
  destruct (complete_rows_proper xs xs' ys ys' Hx Hy) as [H1 H2].
  set (rows := complete_rows xs ys) in *.
  set (rows' := complete_rows xs' ys') in *.
  assert (Hlen : length rows = length rows').
  { apply Forall2_length in H1. by rewrite !length_fmap in H1. }
  rewrite Hlen. destruct (length rows' <? 1)%nat; [reflexivity |].
  assert (Hsx : (ssqdm rows.*1 == ssqdm rows'.*1)%Q)
    by (apply dot_proper; by apply dev_proper).
  assert (Hsy : (ssqdm rows.*2 == ssqdm rows'.*2)%Q)
    by (apply dot_proper; by apply dev_proper).
  assert (Hc : (covxy rows.*1 rows.*2 == covxy rows'.*1 rows'.*2)%Q)
    by (apply dot_proper; by apply dev_proper).
  assert (Hd : (ssqdm rows.*1 * ssqdm rows.*2
                == ssqdm rows'.*1 * ssqdm rows'.*2)%Q) by (by rewrite Hsx, Hsy).
  rewrite (Qeq_bool_0_proper _ _ Hd).
  destruct (Qeq_bool _ 0); [reflexivity |].
  by rewrite (Qeq_eqR _ _ Hd), (Qeq_eqR _ _ Hc).
Qed.

Lemma corr_proper (df df' : DataFrame fval) :
  Forall2 (fun c c' => c.1 = c'.1 ∧ Forall2 feq c.2 c'.2) df df' →
  corr df = corr df'.
Proof.
  intros Hdf. unfold corr, column_labels. f_equal.
  - induction Hdf as [| c c' df df' [Hl _] _ IH]; [reflexivity |].
    rewrite !fmap_cons. by f_equal.
  - assert (Hrow : ∀ cx cx' : string * list fval, Forall2 feq cx.2 cx'.2 →
               (fun cy => pearson cx.2 cy.2) <$> df
               = (fun cy => pearson cx'.2 cy.2) <$> df').
    { intros cx cx' Hcx. induction Hdf as [| c c' df df' [_ Hc] _ IH];
        [reflexivity |].
      rewrite !fmap_cons. f_equal; [by apply pearson_proper | exact IH]. }
    clear -Hdf Hrow.
    assert (Hgen : ∀ l l' : DataFrame fval,
               Forall2 (fun c c' => c.1 = c'.1 ∧ Forall2 feq c.2 c'.2) l l' →
               (fun cx => (fun cy => pearson cx.2 cy.2) <$> df) <$> l
               = (fun cx => (fun cy => pearson cx.2 cy.2) <$> df') <$> l').
    { induction 1 as [| c c' l l' [_ Hc] _ IH]; [reflexivity |].
      rewrite !fmap_cons. f_equal; [by apply Hrow | exact IH]. }
    by apply Hgen.
Qed.

(** X12. The matrix does not depend on the unit of a column: multiplying
    all prices of one company by a positive factor leaves every cell as it
    was. *)
Theorem rescaled_column_same_matrix
        (pre post : DataFrame price) (label : string) (col : list price) (k : Q) :
  (0 < k)%Q →
  (create_correlation_heatmap (pre ++ (label, scale_prices k col) :: post)).2
  = (create_correlation_heatmap (pre ++ (label, col) :: post)).2.
Proof.
  intros Hk. unfold create_correlation_heatmap. simpl. f_equal.
  apply corr_proper. unfold pct_change. rewrite !fmap_app, !fmap_cons.
  assert (Hrefl : ∀ l : DataFrame fval,
             Forall2 (fun c c' => c.1 = c'.1 ∧ Forall2 feq c.2 c'.2) l l).
  { induction l; constructor; [split; [done | apply Forall2_feq_refl] | done]. }
  apply Forall2_app; [apply Hrefl |].
  constructor; [| apply Hrefl].
  split; [reflexivity |]. simpl. by apply series_pct_change_scale.
Qed.

Lemma rescaled_column_same_matrix_witness :
  (create_correlation_heatmap
     [ ("AAPL", scale_prices 100 [Some 1%Q; Some 2%Q; Some 3%Q]);
       ("MSFT", [Some 1%Q; Some 3%Q; Some 4%Q]) ]).2
  = (create_correlation_heatmap
       [ ("AAPL", [Some 1%Q; Some 2%Q; Some 3%Q]);
         ("MSFT", [Some 1%Q; Some 3%Q; Some 4%Q]) ]).2.
Proof.
  apply (rescaled_column_same_matrix [] [("MSFT", [Some 1%Q; Some 3%Q; Some 4%Q])]
           "AAPL" [Some 1%Q; Some 2%Q; Some 3%Q] 100).
  reflexivity.
Defined.

(** ** Whitespace around an entry, and a comma at the end *)

Lemma lstrip_all_space (ws : string) :
  all_space ws = true → PyStr.lstrip ws = EmptyString.
Proof.
  induction ws as [| c ws IH]; [reflexivity |]. simpl.
  intros [Hc Hws]%andb_true_iff. rewrite Hc. by apply IH.
Qed.

Lemma rstrip_all_space (ws : string) :
  all_space ws = true → PyStr.rstrip ws = EmptyString.
Proof.
  induction ws as [| c ws IH]; [reflexivity |]. simpl.
  intros [Hc Hws]%andb_true_iff. by rewrite (IH Hws), Hc.
Qed.

Lemma lstrip_app_space (ws s : string) :
  all_space ws = true → PyStr.lstrip (ws +:+ s) = PyStr.lstrip s.
Proof.
  induction ws as [| c ws IH]; [reflexivity |]. simpl.
  intros [Hc Hws]%andb_true_iff. rewrite Hc. by apply IH.
Qed.

Lemma rstrip_app_space (s ws : string) :
  all_space ws = true → PyStr.rstrip (s +:+ ws) = PyStr.rstrip s.
Proof.
  intros Hws. induction s as [| c s IH].
  - simpl. by apply rstrip_all_space.
  - simpl. by rewrite IH.
Qed.

Lemma strip_app_space_r (s ws : string) :
  all_space ws = true → PyStr.strip (s +:+ ws) = PyStr.strip s.
Proof.
  intros Hws. unfold PyStr.strip. induction s as [| c s IH].
  - change (EmptyString +:+ ws) with ws.
    by rewrite (lstrip_all_space ws Hws).
  - change (String c s +:+ ws) with (String c (s +:+ ws)).
    cbn [PyStr.lstrip]. destruct (PyStr.isspace c); [exact IH |].
    change (String c (s +:+ ws)) with (String c s +:+ ws).
    by apply rstrip_app_space.
Qed.

(** X13. Whitespace typed before and after an entry does not change what
    the entry is read as. *)
Theorem strip_ignores_padding (before s after : string) :
  all_space before = true → all_space after = true →
  PyStr.strip (before +:+ s +:+ after) = PyStr.strip s.
Proof.
  intros Hb Ha. unfold PyStr.strip at 1.
  rewrite (lstrip_app_space before _ Hb).
  by apply strip_app_space_r.
Qed.

Lemma strip_ignores_padding_witness :
  PyStr.strip ("  " +:+ "Johnson & Johnson" +:+ String "009"%char " ")
  = PyStr.strip "Johnson & Johnson".
Proof. apply strip_ignores_padding; reflexivity. Defined.

Lemma split_app_trailing_sep (sep : ascii) (a : string) :
  PyStr.split sep (a +:+ String sep EmptyString)
  = PyStr.split sep a ++ [EmptyString].
Proof.
  induction a as [| c a IH].
  - simpl. by rewrite Ascii.eqb_refl.
  - simpl. rewrite IH. destruct (Ascii.eqb c sep); [reflexivity |].
    destruct (PyStr.split sep a) as [| w ws] eqn:Hs;
      [by apply split_nonempty in Hs | reflexivity].
Qed.

(** X14. A line that ends with a comma is always turned down: the empty
    entry after the last comma is no company, and it is reported as the
    last of the invalid entries. *)
Theorem trailing_comma_rejected (line : string) :
  ∃ invalid : list string,
    loop_body (line +:+ ",")
    = ([prompt; Print (InvalidCompanies (invalid ++ [EmptyString]));
        Print (Text "Please choose from the available list.")], None).
Proof.
  unfold loop_body.
  change (line +:+ ",") with (line +:+ String ","%char EmptyString).
  rewrite split_app_trailing_sep, fmap_app.
  change (PyStr.strip <$> [EmptyString]) with [EmptyString].
  set (cs := PyStr.strip <$> PyStr.split ","%char line).
  assert (Hne : 1 ≤ length cs).
  { unfold cs. rewrite length_fmap, length_split. lia. }
  replace (length (cs ++ [EmptyString]) <? 2)%nat with false
    by (symmetry; apply Nat.ltb_ge; rewrite length_app; simpl; lia).
  rewrite filter_app.
  exists (filter (fun c => c ∉ available_companies) cs).
  change (filter (fun c => c ∉ available_companies) [EmptyString])
    with [EmptyString].
  destruct (filter _ cs); reflexivity.
Qed.

(** ** Companies that move together *)

(** X15. Two columns whose prices differ by a positive factor, equal
    columns among them, have correlation exactly 1 when their returns have
    nonzero variance. *)
Theorem proportional_columns_correlation_one
        (data : DataFrame price) (i j : nat) (li lj : string)
        (col : list price) (k : Q) (evs : list event) (M : Matrix) :
  data !! i = Some (li, col) →
  data !! j = Some (lj, scale_prices k col) →
  (0 < k)%Q →
  nonzero_variance (series_pct_change col) →
  create_correlation_heatmap data = (evs, inr M) →
  cell M i j = Some (Some 1%R) ∧ cell M j i = Some (Some 1%R).
Proof.
  intros Hi Hj Hk Hvar Hrun.
  apply create_correlation_heatmap_value in Hrun. injection Hrun as ->.
  assert (Hij : cell (corr (pct_change data)) i j = Some (Some 1%R)).
  { rewrite cell_corr_pct, Hi, Hj. simpl. f_equal.
    rewrite (pearson_proper _ (series_pct_change col)
               (series_pct_change (scale_prices k col)) (series_pct_change col)).
    - by apply pearson_self.
    - apply Forall2_feq_refl.
    - by apply series_pct_change_scale. }
  split; [exact Hij |]. by rewrite cell_corr_sym.
Qed.

Lemma proportional_columns_correlation_one_witness :
  let data : DataFrame price :=
    [ ("V", [Some 1%Q; Some 2%Q; Some 3%Q]);
      ("MA", scale_prices 2 [Some 1%Q; Some 2%Q; Some 3%Q]) ] in
  cell (corr (pct_change data)) 0 1 = Some (Some 1%R)
  ∧ cell (corr (pct_change data)) 1 0 = Some (Some 1%R).
Proof.
  intros data.
  apply (proportional_columns_correlation_one data 0 1 "V" "MA"
           [Some 1%Q; Some 2%Q; Some 3%Q] 2
           (create_correlation_heatmap data).1 (corr (pct_change data)));
    try reflexivity.
  unfold nonzero_variance. vm_compute. discriminate.
Defined.

(** ** Nothing is shown without a table *)

(** X16. Whenever a run draws anything or prints the matrix, a valid line
    was typed before and the provider returned a table for its tickers. *)
Theorem render_needs_table
        (yf_download : list string -> string -> string -> exn + DataFrame price)
        (lines : list string) (ev : event) :
  ev ∈ (main yf_download lines).1 →
  renders ev = true →
  ∃ companies data,
    (input_loop lines).2 = Some companies
    ∧ yf_download (symbols_of companies) "2023-01-01" "2024-01-01" = inr data.
Proof.
  intros Hev Hr.
  assert (Hquiet : ∀ evs, Forall (fun e => renders e = false) evs → ev ∉ evs).
  { intros evs Hall Hin. rewrite Forall_forall in Hall.
    specialize (Hall ev Hin). congruence. }
  unfold main in Hev.
  pose proof (input_loop_no_render lines) as Hloop.
  destruct (input_loop lines) as [evs [companies |]]; cbn [fst snd] in *.
  - destruct (yf_download (symbols_of companies) "2023-01-01" "2024-01-01")
      as [e | data] eqn:Hyf; [| by exists companies, data].
    exfalso.
    assert (Hproc : (process yf_download companies).1
                    = [YfDownload (symbols_of companies) "2023-01-01" "2024-01-01";
                       Print (ErrorProcessing e)]).
    { unfold process, fetch_stock_data. by rewrite Hyf. }
    rewrite Hproc in Hev.
    apply elem_of_app in Hev as [Hev | Hev];
      [by apply (Hquiet banner banner_no_render) |].
    apply elem_of_app in Hev as [Hev | Hev]; [by apply (Hquiet evs) |].
    refine (Hquiet [YfDownload (symbols_of companies) "2023-01-01" "2024-01-01";
                    Print (ErrorProcessing e)] _ Hev).
    by repeat constructor.
  - exfalso. apply elem_of_app in Hev as [Hev | Hev].
    + by apply (Hquiet banner banner_no_render).
    + by apply (Hquiet evs).
Qed.

Lemma render_needs_table_witness :
  let provider := fun (symbols : list string) (_ _ : string) =>
    inr ((fun s => (s, [Some 1%Q; Some 2%Q; Some 3%Q])) <$> symbols)
    : exn + DataFrame price in
  ∃ companies data,
    (input_loop ["Apple, Tesla"]).2 = Some companies
    ∧ provider (symbols_of companies) "2023-01-01" "2024-01-01" = inr data.
Proof.
  intros provider.
  apply (render_needs_table provider ["Apple, Tesla"] PltShow).
  - apply (list_elem_of_lookup_2 _ 23). vm_compute. reflexivity.
  - reflexivity.
Defined.


(** ** The markers in a run of the driver *)

(** C10.  In a run of the driver the markers are missing: on the selection
    "Apple, Tesla" the provider's table has the columns AAPL and TSLA, and
    Apple's price rises on day 1, so that day is due the upward marker; but
    the renderer looks for a column named "Apple", raises [KeyError] at the
    first panel, and the run ends with the error report without a single
    marker drawn. *)
Theorem markers_missing_in_a_run :
  let table : DataFrame price :=
    [ ("AAPL", [Some 100%Q; Some 110%Q; Some 99%Q]);
      ("TSLA", [Some 50%Q; Some 45%Q; Some 60%Q]) ] in
  let provider := fun (_ : list string) (_ _ : string) =>
                    inr table : exn + DataFrame price in
  input_loop ["Apple, Tesla"] = ([prompt], Some ["Apple"; "Tesla"])
  ∧ symbols_of ["Apple"; "Tesla"] = column_labels table
  ∧ (∃ v, series_pct_change [Some 100%Q; Some 110%Q; Some 99%Q] !! 1%nat = Some v
          ∧ fgt0 v = true)
  ∧ create_candlestick_charts table ["Apple"; "Tesla"]
    = ([PltSubplots 2 1 12 10], inl (KeyError "Apple"))
  ∧ Forall (fun ev => is_scatter ev = false) (main provider ["Apple, Tesla"]).1
  ∧ last (main provider ["Apple, Tesla"]).1
    = Some (Print (ErrorProcessing (KeyError "Apple"))).
Proof.
  intros table provider.
  split; [vm_compute; reflexivity |].
  split; [vm_compute; reflexivity |].
  split; [eexists; split; [reflexivity | vm_compute; reflexivity] |].
  assert (Hcharts : create_candlestick_charts table ["Apple"; "Tesla"]
                    = ([PltSubplots 2 1 12 10], inl (KeyError "Apple")))
    by (vm_compute; reflexivity).
  split; [exact Hcharts |].
  assert (Hmain : (main provider ["Apple, Tesla"]).1
    = banner
        ++ [ prompt;
             YfDownload ["AAPL"; "TSLA"] "2023-01-01" "2024-01-01";
             PltFigure 12 10;
             SnsHeatmap (corr (pct_change table))
               {| annot := true; cmap := "Blues"; center := 0;
                  vmin := -1; vmax := 1; square := true;
                  linewidths := 1 # 2 |};
             PltTitle "Stock Price Correlation Heatmap" 16;
             PltTightLayout;
             PltShow;
             Print (Text (newline +:+ "Correlation Matrix:"));
             Print (MatrixText (corr (pct_change table)));
             PltSubplots 2 1 12 10;
             Print (ErrorProcessing (KeyError "Apple")) ]).
  { unfold main.
    change (input_loop ["Apple, Tesla"]) with ([prompt], Some ["Apple"; "Tesla"]).
    cbv beta iota. cbn [fst]. f_equal. }
  rewrite Hmain. split; [by repeat constructor | reflexivity].
Qed.
